(** * browser_use/browser/browser.py: the Browser connection lifecycle

    A shallow embedding of [BrowserConfig] and of the methods of [Browser]
    that establish, serve and tear down the Playwright connection:
    [get_playwright_browser], [_init], [_setup_browser] with its four
    strategies, and [close].

    The methods talk to the outside world (the Playwright driver, the
    [requests] library, [subprocess], [asyncio], the logger).  They are
    embedded as programs of a small free monad [Prog]: a tree whose nodes are
    the calls the method makes, in the order it makes them.  One tree is read
    in two ways: [run] executes a single caller to completion; [resume] and
    [schedule] interleave several callers at their [await] points, the way
    the asyncio event loop does. *)

From Stdlib Require Import String List ZArith Bool Arith Lia.
Import ListNotations.

Set Implicit Arguments.

Local Open Scope string_scope.
Local Open Scope list_scope.

(** ** Python values *)

(** Playwright objects are opaque: only their identity matters here. *)
Definition Playwright := nat.
Definition PlaywrightBrowser := nat.

(** [playwright._impl._api_structures.ProxySettings] *)
Record ProxySettings := {
  server : string;
  bypass : option string;
  username : option string;
  password : option string
}.

(** Truth value of a [str | None] attribute: [None] and [''] are falsy. *)
Definition truthy (v : option string) : bool :=
  match v with
  | None => false
  | Some s => negb (s =? "")
  end.

(** ** BrowserConfig *)

(** The fields of the dataclass, but [new_context_config]: it is handed to
    browser contexts and no method here reads it. *)
Record BrowserConfig := {
  headless : bool;
  disable_security : bool;
  extra_chromium_args : list string;
  chrome_instance_path : option string;
  wss_url : option string;
  cdp_url : option string;
  enable_adblock : bool;
  proxy : option ProxySettings;
  _force_keep_browser_alive : bool
}.

(** The dataclass defaults. *)
Definition BrowserConfig_default : BrowserConfig := {|
  headless := false;
  disable_security := true;
  extra_chromium_args := [];
  chrome_instance_path := None;
  wss_url := None;
  cdp_url := None;
  enable_adblock := false;
  proxy := None;
  _force_keep_browser_alive := false
|}.

(** ** Exceptions *)

(** The classes of [requests.exceptions] that [requests.get] raises.
    [ConnectionError], [ProxyError], [SSLError] and [ConnectTimeout] are
    [ConnectionError]s; [ReadTimeout] derives from [Timeout] only. *)
Inductive requests_class :=
| ConnectionError
| ProxyError
| SSLError
| ConnectTimeout
| ReadTimeout
| TooManyRedirects
| ChunkedEncodingError.

Definition is_ConnectionError (c : requests_class) : bool :=
  match c with
  | ConnectionError | ProxyError | SSLError | ConnectTimeout => true
  | ReadTimeout | TooManyRedirects | ChunkedEncodingError => false
  end.

Record requests_exception := {
  req_class : requests_class;
  req_message : string
}.

(** [playwright.async_api.Error] and its subclass [TimeoutError]. *)
Inductive playwright_error :=
| Error (message : string)
| TimeoutError (message : string).

Inductive exn :=
| ValueError (msg : string)
| RuntimeError (msg : string)
| AttributeError (msg : string)
| OSError (msg : string)
| RequestException (e : requests_exception)
| PlaywrightError (e : playwright_error).

(** [str(e)] *)
Definition str (e : exn) : string :=
  match e with
  | ValueError m | RuntimeError m | AttributeError m | OSError m => m
  | RequestException r => req_message r
  | PlaywrightError (Error m) | PlaywrightError (TimeoutError m) => m
  end.

(** [isinstance(e, requests.ConnectionError)] *)
Definition isinstance_requests_ConnectionError (e : exn) : bool :=
  match e with
  | RequestException r => is_ConnectionError (req_class r)
  | _ => false
  end.

(** ** The calls a method makes to the outside *)

Inductive level := DEBUG | INFO | ERROR.

Inductive redirect := DEVNULL.

Inductive call :=
| async_playwright_start
| chromium_connect_over_cdp (playwright : Playwright) (endpoint_url : string)
                            (timeout : option Z)
| chromium_connect (playwright : Playwright) (ws_endpoint : string)
| chromium_launch (playwright : Playwright) (headless : bool)
                  (args : list string) (proxy : option ProxySettings)
| requests_get (url : string) (timeout : Z)
| subprocess_Popen (args : list string) (stdout stderr : redirect)
| asyncio_sleep (delay : Z)
| PlaywrightBrowser_close (browser : PlaywrightBrowser)
| Playwright_stop (playwright : Playwright)
| logger (lvl : level) (msg : string)
| gc_collect.

(** The calls that are awaited: the coroutine is suspended there and other
    tasks of the event loop run.  [requests.get], [subprocess.Popen], the
    logger and [gc.collect] are plain synchronous calls. *)
Definition awaited (c : call) : bool :=
  match c with
  | async_playwright_start
  | chromium_connect_over_cdp _ _ _
  | chromium_connect _ _
  | chromium_launch _ _ _ _
  | asyncio_sleep _
  | PlaywrightBrowser_close _
  | Playwright_stop _ => true
  | requests_get _ _
  | subprocess_Popen _ _ _
  | logger _ _
  | gc_collect => false
  end.

Record Response := { status_code : Z }.

(** What a call hands back: its value, or the exception it raises. *)
Definition resp (c : call) : Type :=
  match c with
  | async_playwright_start => (Playwright + playwright_error)%type
  | chromium_connect_over_cdp _ _ _
  | chromium_connect _ _
  | chromium_launch _ _ _ _ => (PlaywrightBrowser + playwright_error)%type
  | requests_get _ _ => (Response + requests_exception)%type
  | subprocess_Popen _ _ _ => (unit + string)%type
  | PlaywrightBrowser_close _
  | Playwright_stop _ => (unit + playwright_error)%type
  | asyncio_sleep _
  | logger _ _
  | gc_collect => unit
  end.

(** The calls made so far, oldest first. *)
Definition trace := list call.

(** The outside world: it answers a call knowing everything that was called
    before. *)
Definition world := forall (history : trace) (c : call), resp c.

(** ** The Browser object *)

(** An instance attribute is bound to a value or was removed by [del]. *)
Inductive attr (A : Type) :=
| Deleted
| Bound (v : A).
Arguments Deleted {A}.

Record Browser := {
  config : BrowserConfig;
  playwright : attr (option Playwright);
  playwright_browser : attr (option PlaywrightBrowser);
  disable_security_args : list string
}.

Definition set_playwright (v : attr (option Playwright)) (self : Browser) :=
  {| config := config self;
     playwright := v;
     playwright_browser := playwright_browser self;
     disable_security_args := disable_security_args self |}.

Definition set_playwright_browser (v : attr (option PlaywrightBrowser))
    (self : Browser) :=
  {| config := config self;
     playwright := playwright self;
     playwright_browser := v;
     disable_security_args := disable_security_args self |}.

(** [Browser.__init__]: the object it builds, and its debug line. *)
Definition __init__ (config : BrowserConfig) (t : trace) : Browser * trace :=
  ({| config := config;
      playwright := Bound None;
      playwright_browser := Bound None;
      disable_security_args :=
        if disable_security config then
          [ "--disable-web-security";
            "--disable-site-isolation-trials";
            "--disable-features=IsolateOrigins,site-per-process" ]
        else [] |},
   t ++ [logger DEBUG "Initializing new browser"]).

(** ** Programs *)

Inductive Prog (A : Type) : Type :=
| Ret (a : A)
| Raise (e : exn)
| Vis (c : call) (k : resp c -> Prog A)
| Read (k : Browser -> Prog A)
| Modify (f : Browser -> Browser) (k : Prog A).
Arguments Raise {A} e.
Arguments Read {A} k.
Arguments Modify {A} f k.

Fixpoint bind {A B} (p : Prog A) (f : A -> Prog B) : Prog B :=
  match p with
  | Ret a => f a
  | Raise e => Raise e
  | Vis c k => Vis c (fun r => bind (k r) f)
  | Read k => Read (fun s => bind (k s) f)
  | Modify g k => Modify g (bind k f)
  end.

Notation "x <- p ;; q" := (bind p (fun x => q))
  (at level 61, p at next level, right associativity).
Notation "p ;; q" := (bind p (fun _ => q))
  (at level 61, right associativity).

(** [try: p / except E as e: h e]; [h] re-raises what [E] does not match. *)
Fixpoint try_except {A} (p : Prog A) (h : exn -> Prog A) : Prog A :=
  match p with
  | Ret a => Ret a
  | Raise e => h e
  | Vis c k => Vis c (fun r => try_except (k r) h)
  | Read k => Read (fun s => try_except (k s) h)
  | Modify g k => Modify g (try_except k h)
  end.

(** [try: p / finally: fin] *)
Fixpoint try_finally {A} (p : Prog A) (fin : Prog unit) : Prog A :=
  match p with
  | Ret a => fin ;; Ret a
  | Raise e => fin ;; Raise e
  | Vis c k => Vis c (fun r => try_finally (k r) fin)
  | Read k => Read (fun s => try_finally (k s) fin)
  | Modify g k => Modify g (try_finally k fin)
  end.

(** [for _ in range(n): body], where [body] says whether it hit [break]. *)
Inductive loop_exit := Continue | Break.

Fixpoint for_range (n : nat) (body : Prog loop_exit) : Prog unit :=
  match n with
  | O => Ret tt
  | S n' =>
      x <- body ;;
      match x with
      | Break => Ret tt
      | Continue => for_range n' body
      end
  end.

(** ** Calling out *)

Definition returned {A E} (inj : E -> exn) (r : A + E) : Prog A :=
  match r with
  | inl a => Ret a
  | inr e => Raise (inj e)
  end.

Definition await_async_playwright_start : Prog Playwright :=
  Vis async_playwright_start (returned PlaywrightError).

Definition await_connect_over_cdp (playwright : Playwright)
    (endpoint_url : string) (timeout : option Z) : Prog PlaywrightBrowser :=
  Vis (chromium_connect_over_cdp playwright endpoint_url timeout)
      (returned PlaywrightError).

Definition await_connect (playwright : Playwright) (ws_endpoint : string)
    : Prog PlaywrightBrowser :=
  Vis (chromium_connect playwright ws_endpoint) (returned PlaywrightError).

Definition await_launch (playwright : Playwright) (headless : bool)
    (args : list string) (proxy : option ProxySettings)
    : Prog PlaywrightBrowser :=
  Vis (chromium_launch playwright headless args proxy)
      (returned PlaywrightError).

Definition get (url : string) (timeout : Z) : Prog Response :=
  Vis (requests_get url timeout) (returned RequestException).

Definition Popen (args : list string) (stdout stderr : redirect) : Prog unit :=
  Vis (subprocess_Popen args stdout stderr) (returned OSError).

Definition await_sleep (delay : Z) : Prog unit :=
  Vis (asyncio_sleep delay) (fun _ => Ret tt).

Definition await_close (browser : PlaywrightBrowser) : Prog unit :=
  Vis (PlaywrightBrowser_close browser) (returned PlaywrightError).

Definition await_stop (playwright : Playwright) : Prog unit :=
  Vis (Playwright_stop playwright) (returned PlaywrightError).

Definition log (lvl : level) (msg : string) : Prog unit :=
  Vis (logger lvl msg) (fun _ => Ret tt).

Definition collect : Prog unit :=
  Vis gc_collect (fun _ => Ret tt).

(** ** Attribute access on [self] *)

Definition self_config : Prog BrowserConfig :=
  Read (fun self => Ret (config self)).

Definition getattr {A} (field : Browser -> attr A) (name : string) : Prog A :=
  Read (fun self =>
    match field self with
    | Bound v => Ret v
    | Deleted =>
        Raise (AttributeError
                 ("'Browser' object has no attribute '" ++ name ++ "'"))
    end).

Definition self_playwright : Prog (option Playwright) :=
  getattr playwright "playwright".

Definition self_playwright_browser : Prog (option PlaywrightBrowser) :=
  getattr playwright_browser "playwright_browser".

Definition self_disable_security_args : Prog (list string) :=
  Read (fun self => Ret (disable_security_args self)).

Definition assign_playwright (v : option Playwright) : Prog unit :=
  Modify (set_playwright (Bound v)) (Ret tt).

Definition assign_playwright_browser (v : option PlaywrightBrowser)
    : Prog unit :=
  Modify (set_playwright_browser (Bound v)) (Ret tt).

(** [del self.name]: removes a bound attribute; on one that was already
    removed it raises, as reading it does. *)
Definition delattr {A} (field : Browser -> attr A)
    (unset : Browser -> Browser) (name : string) : Prog unit :=
  Read (fun self =>
    match field self with
    | Bound _ => Modify unset (Ret tt)
    | Deleted =>
        Raise (AttributeError
                 ("'Browser' object has no attribute '" ++ name ++ "'"))
    end).

Definition del_playwright : Prog unit :=
  delattr playwright (set_playwright Deleted) "playwright".

Definition del_playwright_browser : Prog unit :=
  delattr playwright_browser (set_playwright_browser Deleted)
    "playwright_browser".

(** A method called on an attribute's value: [None] has no methods. *)
Definition method {A B} (v : option A) (name : string) (m : A -> Prog B)
    : Prog B :=
  match v with
  | Some o => m o
  | None =>
      Raise (AttributeError
               ("'NoneType' object has no attribute '" ++ name ++ "'"))
  end.

(** The text of a [str | None] inside an f-string or as an argument. *)
Definition text (v : option string) : string :=
  match v with
  | Some s => s
  | None => "None"
  end.

(** ** The methods of Browser *)

Module Browser.

Definition version_url : string := "http://localhost:9222/json/version".
Definition local_endpoint : string := "http://localhost:9222".

Definition _setup_cdp (playwright : Playwright) : Prog PlaywrightBrowser :=
  cfg <- self_config ;;
  if negb (truthy (cdp_url cfg)) then
    Raise (ValueError "CDP URL is required")
  else
    log INFO ("Connecting to remote browser via CDP " ++ text (cdp_url cfg)) ;;
    browser <- await_connect_over_cdp playwright (text (cdp_url cfg)) None ;;
    Ret browser.

Definition _setup_wss (playwright : Playwright) : Prog PlaywrightBrowser :=
  cfg <- self_config ;;
  if negb (truthy (wss_url cfg)) then
    Raise (ValueError "WSS URL is required")
  else
    log INFO ("Connecting to remote browser via WSS " ++ text (wss_url cfg)) ;;
    browser <- await_connect playwright (text (wss_url cfg)) ;;
    Ret browser.

(** The body of the polling loop: [Break] on a 200, otherwise one second of
    sleep. *)
Definition poll_once : Prog loop_exit :=
  x <- try_except
         (response <- get version_url 2 ;;
          if (status_code response =? 200)%Z then Ret Break else Ret Continue)
         (fun e =>
            if isinstance_requests_ConnectionError e then Ret Continue
            else Raise e) ;;
  match x with
  | Break => Ret Break
  | Continue => await_sleep 1 ;; Ret Continue
  end.

(** The polling loop after the spawn. *)
Definition wait_for_endpoint : Prog unit := for_range 10 poll_once.

Definition chrome_debug_advice : string :=
  " To start chrome in Debug mode, you need to close all existing Chrome instances and try again otherwise we can not connect to the instance.".

(** [_setup_browser_with_instance] from [subprocess.Popen] on: start a new
    Chrome, wait for its endpoint, attach. *)
Definition launch_and_attach (cfg : BrowserConfig) (playwright : Playwright)
    : Prog PlaywrightBrowser :=
  Popen ([ text (chrome_instance_path cfg); "--remote-debugging-port=9222" ]
         ++ extra_chromium_args cfg) DEVNULL DEVNULL ;;
  wait_for_endpoint ;;
  try_except
    (browser <- await_connect_over_cdp playwright local_endpoint
                  (Some 20000%Z) ;;
     Ret browser)
    (fun e =>
       log ERROR ("Failed to start a new Chrome instance.: " ++ str e) ;;
       Raise (RuntimeError chrome_debug_advice)).

Definition _setup_browser_with_instance (playwright : Playwright)
    : Prog PlaywrightBrowser :=
  cfg <- self_config ;;
  if negb (truthy (chrome_instance_path cfg)) then
    Raise (ValueError "Chrome instance path is required")
  else
    (* the first try block: [Some browser] is its [return browser] *)
    reused <- try_except
                (response <- get version_url 2 ;;
                 if (status_code response =? 200)%Z then
                   log INFO "Reusing existing Chrome instance" ;;
                   browser <- await_connect_over_cdp playwright local_endpoint
                                (Some 20000%Z) ;;
                   Ret (Some browser)
                 else Ret None)
                (fun e =>
                   if isinstance_requests_ConnectionError e then
                     log DEBUG
                       "No existing Chrome instance found, starting a new one" ;;
                     Ret None
                   else Raise e) ;;
    match reused with
    | Some browser => Ret browser
    | None => launch_and_attach cfg playwright
    end.

Definition _setup_standard_browser (playwright : Playwright)
    : Prog PlaywrightBrowser :=
  cfg <- self_config ;;
  security_args <- self_disable_security_args ;;
  browser <- await_launch playwright (headless cfg)
               ([ "--no-sandbox";
                  "--disable-blink-features=AutomationControlled";
                  "--disable-infobars";
                  "--disable-background-timer-throttling";
                  "--disable-popup-blocking";
                  "--disable-backgrounding-occluded-windows";
                  "--disable-renderer-backgrounding";
                  "--disable-window-activation";
                  "--disable-focus-on-load";
                  "--no-first-run";
                  "--no-default-browser-check";
                  "--no-startup-window";
                  "--window-position=0,0" ]
                ++ security_args
                ++ extra_chromium_args cfg)
               (proxy cfg) ;;
  Ret browser.

Definition _setup_browser (playwright : Playwright) : Prog PlaywrightBrowser :=
  try_except
    (cfg <- self_config ;;
     if truthy (cdp_url cfg) then _setup_cdp playwright
     else if truthy (wss_url cfg) then _setup_wss playwright
     else if truthy (chrome_instance_path cfg) then
       _setup_browser_with_instance playwright
     else _setup_standard_browser playwright)
    (fun e =>
       log ERROR ("Failed to initialize Playwright browser: " ++ str e) ;;
       Raise e).

Definition _init : Prog (option PlaywrightBrowser) :=
  playwright <- await_async_playwright_start ;;
  browser <- _setup_browser playwright ;;
  assign_playwright (Some playwright) ;;
  assign_playwright_browser (Some browser) ;;
  self_playwright_browser.

Definition get_playwright_browser : Prog (option PlaywrightBrowser) :=
  browser <- self_playwright_browser ;;
  match browser with
  | None => _init
  | Some _ => self_playwright_browser
  end.

(** The [try] suite of [close]. *)
Definition release : Prog unit :=
  cfg <- self_config ;;
  if negb (_force_keep_browser_alive cfg) then
    (browser <- self_playwright_browser ;;
     match browser with
     | Some _ =>
         b <- self_playwright_browser ;;
         method b "close" await_close ;;
         del_playwright_browser
     | None => Ret tt
     end) ;;
    (pw <- self_playwright ;;
     match pw with
     | Some _ =>
         p <- self_playwright ;;
         method p "stop" await_stop ;;
         del_playwright
     | None => Ret tt
     end)
  else Ret tt.

Definition close : Prog unit :=
  try_finally
    (try_except
       release
       (fun e => log DEBUG ("Failed to close browser properly: " ++ str e)))
    (assign_playwright_browser None ;;
     assign_playwright None ;;
     collect).

End Browser.

(** ** One caller, run to completion *)

Inductive outcome (A : Type) :=
| Returned (a : A)
| Raised (e : exn).
Arguments Raised {A} e.

Section Run.

Variable respond : world.

Fixpoint run {A} (p : Prog A) (self : Browser) (t : trace)
    : outcome A * Browser * trace :=
  match p with
  | Ret a => (Returned a, self, t)
  | Raise e => (Raised e, self, t)
  | Vis c k => run (k (respond t c)) self (t ++ [c])
  | Read k => run (k self) self t
  | Modify f k => run k (f self) t
  end.

End Run.

(** ** Worlds to run against *)

Definition is_start (c : call) : bool :=
  match c with
  | async_playwright_start => true
  | _ => false
  end.

(** A connection attempt: an attach or a launch. *)
Definition is_attach (c : call) : bool :=
  match c with
  | chromium_connect_over_cdp _ _ _
  | chromium_connect _ _
  | chromium_launch _ _ _ _ => true
  | _ => false
  end.

Definition is_probe (c : call) : bool :=
  match c with
  | requests_get _ _ => true
  | _ => false
  end.

Definition is_spawn (c : call) : bool :=
  match c with
  | subprocess_Popen _ _ _ => true
  | _ => false
  end.

Definition count (f : call -> bool) (t : trace) : nat :=
  length (filter f t).

(** Everything works; each start and each attach hands out a new object. *)
Definition world_up : world :=
  fun history c =>
    match c return resp c with
    | async_playwright_start => inl (count is_start history)
    | chromium_connect_over_cdp _ _ _
    | chromium_connect _ _
    | chromium_launch _ _ _ _ => inl (count is_attach history)
    | requests_get _ _ => inl {| status_code := 200 |}
    | subprocess_Popen _ _ _ => inl tt
    | PlaywrightBrowser_close _
    | Playwright_stop _ => inl tt
    | asyncio_sleep _
    | logger _ _
    | gc_collect => tt
    end.

(** Nothing listens on the debugging port and nothing ever will. *)
Definition world_down : world :=
  fun history c =>
    match c return resp c with
    | async_playwright_start => inl (count is_start history)
    | chromium_connect_over_cdp _ _ _
    | chromium_connect _ _ => inr (Error "connect ECONNREFUSED")
    | chromium_launch _ _ _ _ => inr (Error "Executable doesn't exist")
    | requests_get _ _ =>
        inr {| req_class := ConnectionError;
               req_message := "Connection refused" |}
    | subprocess_Popen _ _ _ => inl tt
    | PlaywrightBrowser_close _
    | Playwright_stop _ => inr (Error "Target closed")
    | asyncio_sleep _
    | logger _ _
    | gc_collect => tt
    end.

(** The port accepts the connection but does not answer within the two
    seconds of the probe. *)
Definition world_stalled : world :=
  fun history c =>
    match c return resp c with
    | requests_get _ _ =>
        inr {| req_class := ReadTimeout; req_message := "Read timed out." |}
    | c' => world_down history c'
    end.

Definition fresh (cfg : BrowserConfig) : Browser := fst (__init__ cfg []).

Definition with_chrome (path : string) : BrowserConfig :=
  {| headless := false;
     disable_security := true;
     extra_chromium_args := [];
     chrome_instance_path := Some path;
     wss_url := None;
     cdp_url := None;
     enable_adblock := false;
     proxy := None;
     _force_keep_browser_alive := false |}.

Definition keep_alive : BrowserConfig :=
  {| headless := false;
     disable_security := true;
     extra_chromium_args := [];
     chrome_instance_path := None;
     wss_url := None;
     cdp_url := None;
     enable_adblock := false;
     proxy := None;
     _force_keep_browser_alive := true |}.

Definition connected (cfg : BrowserConfig) (p : Playwright)
    (b : PlaywrightBrowser) : Browser :=
  set_playwright_browser (Bound (Some b))
    (set_playwright (Bound (Some p)) (fresh cfg)).

(** ** Several callers on the event loop *)

(** A task is the rest of a coroutine.  It is finished once it is a [Ret] or
    a [Raise]. *)
Definition result {A} (p : Prog A) : option (outcome A) :=
  match p with
  | Ret a => Some (Returned a)
  | Raise e => Some (Raised e)
  | _ => None
  end.

Fixpoint replace_nth {A} (i : nat) (x : A) (l : list A) : list A :=
  match l, i with
  | [], _ => []
  | _ :: l', O => x :: l'
  | y :: l', S i' => y :: replace_nth i' x l'
  end.

(** What is left of [_init] once [async_playwright().start()] has answered
    [r]: a caller suspended there goes on with exactly this. *)
Definition _init_resumed (r : Playwright + playwright_error)
    : Prog (option PlaywrightBrowser) :=
  playwright <- returned PlaywrightError r ;;
  browser <- Browser._setup_browser playwright ;;
  assign_playwright (Some playwright) ;;
  assign_playwright_browser (Some browser) ;;
  self_playwright_browser.

Section Loop.

Variable respond : world.

(** The event loop hands control to a task: the task runs, alone, up to and
    including its next awaited call, and is suspended there with the rest of
    its code.  Synchronous calls and accesses to [self] do not give up
    control. *)
Fixpoint resume {A} (p : Prog A) (self : Browser) (t : trace)
    : Prog A * Browser * trace :=
  match p with
  | Ret a => (Ret a, self, t)
  | Raise e => (Raise e, self, t)
  | Vis c k =>
      if awaited c then (k (respond t c), self, t ++ [c])
      else resume (k (respond t c)) self (t ++ [c])
  | Read k => resume (k self) self t
  | Modify f k => resume k (f self) t
  end.

Definition step {A} (i : nat) (pool : list (Prog A)) (self : Browser)
    (t : trace) : list (Prog A) * Browser * trace :=
  match nth_error pool i with
  | None => (pool, self, t)
  | Some p =>
      let '(p', self', t') := resume p self t in
      (replace_nth i p' pool, self', t')
  end.

(** [order] lists which task the loop wakes next. *)
Fixpoint schedule {A} (order : list nat) (pool : list (Prog A))
    (self : Browser) (t : trace) : list (Prog A) * Browser * trace :=
  match order with
  | [] => (pool, self, t)
  | i :: order' =>
      let '(pool', self', t') := step i pool self t in
      schedule order' pool' self' t'
  end.

(** Calls made one after the other, each finished before the next begins. *)
Fixpoint in_sequence {A} (n : nat) (p : Prog A) (self : Browser) (t : trace)
    : list (outcome A) * Browser * trace :=
  match n with
  | O => ([], self, t)
  | S n' =>
      let '(o, self', t') := run respond p self t in
      let '(os, self'', t'') := in_sequence n' p self' t' in
      (o :: os, self'', t'')
  end.

(** Where [n] callers stand that were woken in turn from trace [t] and
    each found no handle: each is suspended in its own [_init], holding the
    answer to its own driver start. *)
Definition suspended (t : trace) (n : nat)
    : list (Prog (option PlaywrightBrowser)) :=
  map (fun i =>
         _init_resumed
           (respond (t ++ repeat async_playwright_start i)
                    async_playwright_start))
      (seq 0 n).

End Loop.

(** [asyncio.gather] of [n] calls of [get_playwright_browser]. *)
Definition callers (n : nat) : list (Prog (option PlaywrightBrowser)) :=
  repeat Browser.get_playwright_browser n.

(** [ensures p returns raises made]: a task that has made the calls [made]
    and goes on with [p] can only finish with [returns] or [raises] true of
    all the calls it made, whatever the world answers and whatever the other
    tasks have left in [self] each time it looks. *)
Fixpoint ensures {A} (p : Prog A) (returns : A -> trace -> Prop)
    (raises : exn -> trace -> Prop) (made : trace) : Prop :=
  match p with
  | Ret a => returns a made
  | Raise e => raises e made
  | Vis c k => forall r, ensures (k r) returns raises (made ++ [c])
  | Read k => forall self, ensures (k self) returns raises made
  | Modify _ k => ensures k returns raises made
  end.

(** One connection attempt and no driver start on top of [made]. *)
Definition one_attach_more (made made' : trace) : Prop :=
  count is_attach made' = S (count is_attach made) /\
  count is_start made' = count is_start made.

(** No connection attempt and no driver start on top of [made]. *)
Definition no_attach_more (made made' : trace) : Prop :=
  count is_attach made' = count is_attach made /\
  count is_start made' = count is_start made.

(** Every task of a pool against the calls it has made itself. *)
Definition kept {A} (returns : A -> trace -> Prop)
    (raises : exn -> trace -> Prop) (pool : list (Prog A))
    (mades : list trace) : Prop :=
  Forall2 (fun p made => ensures p returns raises made) pool mades.

(** The calls of a kind that the tasks of a pool have made between them. *)
Definition total (f : call -> bool) (mades : list trace) : nat :=
  list_sum (map (count f) mades).

(** Programs that never assign to [self]. *)
Fixpoint reads_only {A} (p : Prog A) : Prop :=
  match p with
  | Ret _ | Raise _ => True
  | Vis c k => forall r, reads_only (k r)
  | Read k => forall self, reads_only (k self)
  | Modify _ _ => False
  end.

(** The single-flight reading of the specification, for [n] gathered callers
    woken in the given order: everyone has returned the one stored handle,
    after one driver start and one connection attempt. *)
Definition single_flight (respond : world) (cfg : BrowserConfig) (n : nat)
    (order : list nat) : Prop :=
  let '(pool, self, t) := schedule respond order (callers n) (fresh cfg) [] in
  exists b,
    playwright_browser self = Bound (Some b) /\
    Forall (fun p => result p = Some (Returned (Some b))) pool /\
    count is_start t = 1 /\
    count is_attach t = 1.

(** ** The strategies, as the specification names them *)

Inductive strategy :=
| RemoteAttach
| SocketAttach
| LocalInstanceAttach
| StandardLaunch.

(** The precedence order of the specification: the first strategy whose
    field is configured wins, standard launch otherwise. *)
Definition precedence : list (strategy * (BrowserConfig -> option string)) :=
  [ (RemoteAttach, cdp_url);
    (SocketAttach, wss_url);
    (LocalInstanceAttach, chrome_instance_path) ].

Definition select (cfg : BrowserConfig) : strategy :=
  match find (fun entry => truthy (snd entry cfg)) precedence with
  | Some entry => fst entry
  | None => StandardLaunch
  end.

Definition execute (s : strategy) (playwright : Playwright)
    : Prog PlaywrightBrowser :=
  match s with
  | RemoteAttach => Browser._setup_cdp playwright
  | SocketAttach => Browser._setup_wss playwright
  | LocalInstanceAttach => Browser._setup_browser_with_instance playwright
  | StandardLaunch => Browser._setup_standard_browser playwright
  end.

(** The strategy a call belongs to.  A direct attach over CDP has no
    timeout, the reuse-or-launch attach has one; the logger belongs to
    none. *)
Definition owner (c : call) : option strategy :=
  match c with
  | chromium_connect_over_cdp _ _ None => Some RemoteAttach
  | chromium_connect_over_cdp _ _ (Some _) => Some LocalInstanceAttach
  | chromium_connect _ _ => Some SocketAttach
  | chromium_launch _ _ _ _ => Some StandardLaunch
  | requests_get _ _
  | subprocess_Popen _ _ _
  | asyncio_sleep _ => Some LocalInstanceAttach
  | _ => None
  end.

(** ** Reachability of the local debugging endpoint *)

(** A probe that failed to connect, or got a status other than 200. *)
Definition refused (r : Response + requests_exception) : bool :=
  match r with
  | inl response => negb (status_code response =? 200)%Z
  | inr e => is_ConnectionError (req_class e)
  end.

Definition probe : call := requests_get Browser.version_url 2.

Definition spawn (cfg : BrowserConfig) : call :=
  subprocess_Popen
    ([ text (chrome_instance_path cfg); "--remote-debugging-port=9222" ]
     ++ extra_chromium_args cfg) DEVNULL DEVNULL.

Definition attach (playwright : Playwright) : call :=
  chromium_connect_over_cdp playwright Browser.local_endpoint (Some 20000%Z).

(** [n] rounds of the polling loop that never saw a 200. *)
Fixpoint polled (n : nat) : trace :=
  match n with
  | O => []
  | S n' => probe :: asyncio_sleep 1 :: polled n'
  end.

(** Both references cleared: the not-connected state. *)
Definition cleared (self : Browser) : Browser :=
  set_playwright (Bound None) (set_playwright_browser (Bound None) self).

(** ** What the standard launch passes *)

(** The flags [_setup_standard_browser] passes on every launch. *)
Definition baseline_args : list string :=
  [ "--no-sandbox";
    "--disable-blink-features=AutomationControlled";
    "--disable-infobars";
    "--disable-background-timer-throttling";
    "--disable-popup-blocking";
    "--disable-backgrounding-occluded-windows";
    "--disable-renderer-backgrounding";
    "--disable-window-activation";
    "--disable-focus-on-load";
    "--no-first-run";
    "--no-default-browser-check";
    "--no-startup-window";
    "--window-position=0,0" ].

(** The flags [__init__] keeps for a configuration with [disable_security]. *)
Definition security_args : list string :=
  [ "--disable-web-security";
    "--disable-site-isolation-trials";
    "--disable-features=IsolateOrigins,site-per-process" ].

Definition launch (cfg : BrowserConfig) (playwright : Playwright) : call :=
  chromium_launch playwright (headless cfg)
    (baseline_args
     ++ (if disable_security cfg then security_args else [])
     ++ extra_chromium_args cfg)
    (proxy cfg).

(** The two lines [_setup_browser] and its strategies log at ERROR. *)
Definition init_failed (e : exn) : call :=
  logger ERROR ("Failed to initialize Playwright browser: " ++ str e).

Definition is_error_line (c : call) : bool :=
  match c with
  | logger ERROR _ => true
  | _ => false
  end.

(** The calls of the reuse check that did not find a Chrome to reuse: the
    probe, and the debug line when the probe raised. *)
Definition reuse_check (r : Response + requests_exception) : trace :=
  probe
  :: match r with
     | inl _ => []
     | inr _ =>
         [logger DEBUG "No existing Chrome instance found, starting a new one"]
     end.

(** A probe that found the endpoint: a response with status 200. *)
Definition answers_200 (r : Response + requests_exception) : bool :=
  match r with
  | inl response => (status_code response =? 200)%Z
  | inr _ => false
  end.

(** The specification's reading of the retry bound: an endpoint that no
    probe ever finds makes the strategy raise, ten probes after the
    spawn. *)
Definition unreachable_endpoint_is_fatal (respond : world)
    (playwright0 : Playwright) (self : Browser) (t : trace) : Prop :=
  (forall h, answers_200 (respond h probe) = false) ->
  exists e before after,
    run respond (Browser._setup_browser_with_instance playwright0) self t
      = (Raised e, self, t ++ before ++ spawn (config self) :: after) /\
    count is_spawn before = 0 /\
    count is_probe after = 10.


(** ** More worlds *)

(** Chrome is not running; once spawned, its endpoint refuses the first
    three polls and answers the fourth. *)
Definition world_warming : world :=
  fun history c =>
    match c return resp c with
    | requests_get _ _ =>
        if (count is_spawn history =? 0)%nat
           || (count is_probe history <? 4)%nat
        then inr {| req_class := ConnectionError;
                    req_message := "Connection refused" |}
        else inl {| status_code := 200 |}
    | c' => world_up history c'
    end.

(** The port answers every probe with 503, yet the attach goes through. *)
Definition world_busy : world :=
  fun history c =>
    match c return resp c with
    | requests_get _ _ => inl {| status_code := 503 |}
    | c' => world_up history c'
    end.

(** There is no executable at the configured path. *)
Definition world_no_chrome : world :=
  fun history c =>
    match c return resp c with
    | subprocess_Popen _ _ _ => inr "[Errno 2] No such file or directory"
    | c' => world_down history c'
    end.

(** The driver does not start. *)
Definition world_no_driver : world :=
  fun history c =>
    match c return resp c with
    | async_playwright_start => inr (Error "Driver not found")
    | c' => world_up history c'
    end.

Definition with_cdp (url : string) : BrowserConfig :=
  {| headless := true;
     disable_security := false;
     extra_chromium_args := ["--lang=en"];
     chrome_instance_path := Some "/usr/bin/google-chrome";
     wss_url := Some "wss://remote.example/playwright";
     cdp_url := Some url;
     enable_adblock := false;
     proxy := None;
     _force_keep_browser_alive := false |}.

Definition with_wss (url : string) : BrowserConfig :=
  {| headless := true;
     disable_security := false;
     extra_chromium_args := ["--lang=en"];
     chrome_instance_path := Some "/usr/bin/google-chrome";
     wss_url := Some url;
     cdp_url := Some "";
     enable_adblock := false;
     proxy := None;
     _force_keep_browser_alive := false |}.

(** ** close as a task, and the finalizer *)

(** [close()] among callers of [get_playwright_browser]: a coroutine that
    returns [None]. *)
Definition close_task : Prog (option PlaywrightBrowser) :=
  Browser.close ;; Ret None.

(** What [asyncio] answers [__del__]: [get_running_loop()] raises a
    RuntimeError with the given text when no loop runs in the thread, or
    hands out a loop whose [is_running()] is the given boolean;
    [asyncio.run] refuses with a RuntimeError, or runs its coroutine to the
    end. *)
Record asyncio_state := {
  running_loop : string + bool;
  run_refused : option string
}.

Inductive cleanup :=
| no_cleanup
| create_task
| run_now.

(** The [try] suite of [__del__], up to the branch it takes.  [or] reads
    [self.playwright] only when [self.playwright_browser] is falsy. *)
Definition _del_branch (a : asyncio_state) : Prog cleanup :=
  browser <- self_playwright_browser ;;
  held <- match browser with
          | Some _ => Ret true
          | None =>
              pw <- self_playwright ;;
              Ret (match pw with Some _ => true | None => false end)
          end ;;
  if held then
    match running_loop a with
    | inl msg => Raise (RuntimeError msg)
    | inr true => Ret create_task
    | inr false => Ret run_now
    end
  else Ret no_cleanup.

Definition cleanup_failed (e : exn) : call :=
  logger DEBUG ("Failed to cleanup browser in destructor: " ++ str e).

(** [Browser.__del__]: the tasks of the loop, [self] and the trace after it.
    Every exception of its [try] suite ends in the debug line. *)
Definition __del__ (respond : world) (a : asyncio_state)
    (tasks : list (Prog unit)) (self : Browser) (t : trace)
    : list (Prog unit) * Browser * trace :=
  match run respond (_del_branch a) self t with
  | (Raised e, self', t') => (tasks, self', t' ++ [cleanup_failed e])
  | (Returned no_cleanup, self', t') => (tasks, self', t')
  | (Returned create_task, self', t') =>
      (tasks ++ [Browser.close], self', t')
  | (Returned run_now, self', t') =>
      match run_refused a with
      | Some msg => (tasks, self', t' ++ [cleanup_failed (RuntimeError msg)])
      | None =>
          match run respond Browser.close self' t' with
          | (Returned _, self'', t'') => (tasks, self'', t'')
          | (Raised e, self'', t'') => (tasks, self'', t'' ++ [cleanup_failed e])
          end
      end
  end.

(** * Properties *)

(** ** How [run] goes through the combinators *)

Section RunFacts.

Variable respond : world.

Lemma run_bind A B (p : Prog A) (f : A -> Prog B) self t :
  run respond (bind p f) self t =
  let '(o, self', t') := run respond p self t in
  match o with
  | Returned a => run respond (f a) self' t'
  | Raised e => (Raised e, self', t')
  end.
Proof.
  revert self t.
  induction p as [a | e | c k IH | k IH | g k IH]; intros self t; simpl; auto.
Qed.

Lemma run_try_except A (p : Prog A) (h : exn -> Prog A) self t :
  run respond (try_except p h) self t =
  let '(o, self', t') := run respond p self t in
  match o with
  | Returned a => (Returned a, self', t')
  | Raised e => run respond (h e) self' t'
  end.
Proof.
  revert self t.
  induction p as [a | e | c k IH | k IH | g k IH]; intros self t; simpl; auto.
Qed.

Lemma run_try_finally A (p : Prog A) (fin : Prog unit) self t :
  run respond (try_finally p fin) self t =
  let '(o, self', t') := run respond p self t in
  let '(o', self'', t'') := run respond fin self' t' in
  match o' with
  | Returned _ => (o, self'', t'')
  | Raised e => (Raised e, self'', t'')
  end.
Proof.
  revert self t.
  induction p as [a | e | c k IH | k IH | g k IH]; intros self t; simpl; auto;
    rewrite run_bind; destruct (run respond fin self t) as [[[u | e'] s] t'];
    reflexivity.
Qed.

(** The two readings of a program agree: waking a lone task and letting it
    run on gives what running it through gives. *)
Lemma run_after_resume A (p : Prog A) self t :
  let '(p', self', t') := resume respond p self t in
  run respond p' self' t' = run respond p self t.
Proof.
  revert self t.
  induction p as [a | e | c k IH | k IH | g k IH]; intros self t; simpl;
    try reflexivity; try apply IH.
  destruct (awaited c); [reflexivity | apply IH].
Qed.

Lemma run_reads_only A (p : Prog A) self t :
  reads_only p -> snd (fst (run respond p self t)) = self.
Proof.
  revert self t.
  induction p as [a | e | c k IH | k IH | g k IH]; intros self t Hp; simpl in *;
    auto; contradiction.
Qed.

End RunFacts.

(** ** Programs that leave [self] alone *)

Lemma reads_only_bind A B (p : Prog A) (f : A -> Prog B) :
  reads_only p -> (forall a, reads_only (f a)) -> reads_only (bind p f).
Proof.
  induction p as [a | e | c0 k IH | k IH | g k IH]; simpl; auto.
Qed.

Lemma reads_only_try_except A (p : Prog A) (h : exn -> Prog A) :
  reads_only p -> (forall e, reads_only (h e)) -> reads_only (try_except p h).
Proof.
  induction p as [a | e | c0 k IH | k IH | g k IH]; simpl; auto.
Qed.

Lemma reads_only_for_range n (body : Prog loop_exit) :
  reads_only body -> reads_only (for_range n body).
Proof.
  intros Hb. induction n as [| n IH]; simpl; [exact I |].
  apply reads_only_bind; [exact Hb | intros [|]; simpl; auto].
Qed.

Lemma for_range_S n (body : Prog loop_exit) :
  for_range (S n) body =
  (x <- body ;;
   match x with
   | Break => Ret tt
   | Continue => for_range n body
   end).
Proof. reflexivity. Qed.

Lemma reads_only_returned A E (inj : E -> exn) (r : A + E) :
  reads_only (returned inj r).
Proof. destruct r; exact I. Qed.

(** ** close *)

(** Whatever the [try] suite does, it only touches the two references. *)
Lemma release_cleared respond self t :
  cleared (snd (fst (run respond Browser.release self t))) = cleared self.
Proof.
  destruct self as [cfg p b d].
  unfold Browser.release. simpl.
  destruct (_force_keep_browser_alive cfg); simpl; [reflexivity |].
  destruct b as [| [b |]]; simpl; [reflexivity | |].
  - destruct (respond t (PlaywrightBrowser_close b)); simpl; [| reflexivity].
    destruct p as [| [p |]]; simpl; try reflexivity.
    destruct (respond _ (Playwright_stop p)); reflexivity.
  - destruct p as [| [p |]]; simpl; try reflexivity.
    destruct (respond _ (Playwright_stop p)); reflexivity.
Qed.

(** [close] is its [try] suite, a debug line if the suite raised, and the
    [finally] suite. *)
Lemma close_run respond self t :
  run respond Browser.close self t =
  (Returned tt, cleared self,
   snd (run respond Browser.release self t)
   ++ match fst (fst (run respond Browser.release self t)) with
      | Returned _ => []
      | Raised e =>
          [logger DEBUG ("Failed to close browser properly: " ++ str e)]
      end ++ [gc_collect]).
Proof.
  unfold Browser.close. rewrite run_try_finally, run_try_except.
  pose proof (release_cleared respond self t) as Hc.
  destruct (run respond Browser.release self t) as [[[u | e] s] t'];
    simpl in *; rewrite <- Hc.
  - destruct u. reflexivity.
  - rewrite <- app_assoc. reflexivity.
Qed.

Lemma release_not_connected respond self t :
  playwright_browser self = Bound None ->
  playwright self = Bound None ->
  run respond Browser.release self t = (Returned tt, self, t).
Proof.
  destruct self as [cfg p b d]. simpl. intros -> ->.
  unfold Browser.release. simpl.
  destruct (_force_keep_browser_alive cfg); reflexivity.
Qed.

(** C5. [close] never raises: it returns normally from every state and in
    every world; when its [try] suite raised, the error went to the debug
    log and nowhere else; both references end up [None].  A second [close]
    right after the first returns normally as well, leaves the same cleared
    state and calls nothing but the collector, and so does a [close] on a
    Browser that never connected. *)
Theorem close_never_raises respond self t :
  let first := run respond Browser.close self t in
  let body := run respond Browser.release self t in
  first =
    (Returned tt, cleared self,
     snd body
     ++ match fst (fst body) with
        | Returned _ => []
        | Raised e =>
            [logger DEBUG ("Failed to close browser properly: " ++ str e)]
        end ++ [gc_collect]) /\
  playwright_browser (snd (fst first)) = Bound None /\
  playwright (snd (fst first)) = Bound None /\
  run respond Browser.close (snd (fst first)) (snd first) =
    (Returned tt, snd (fst first), snd first ++ [gc_collect]) /\
  forall cfg,
    run respond Browser.close (fresh cfg) t =
      (Returned tt, fresh cfg, t ++ [gc_collect]).
Proof.
  cbv zeta. rewrite close_run.
  cbn [fst snd].
  split; [reflexivity |]. split; [reflexivity |]. split; [reflexivity |].
  split.
  - rewrite close_run, release_not_connected by reflexivity. reflexivity.
  - intros cfg. rewrite close_run, release_not_connected by reflexivity.
    reflexivity.
Qed.

(** C8. With [_force_keep_browser_alive] set, [close] calls neither the
    browser's [close] nor the driver's [stop] (its only call is the
    collector), and still leaves both references [None]. *)
Theorem close_keep_alive respond self t :
  _force_keep_browser_alive (config self) = true ->
  run respond Browser.close self t =
    (Returned tt, cleared self, t ++ [gc_collect]) /\
  playwright_browser (cleared self) = Bound None /\
  playwright (cleared self) = Bound None.
Proof.
  intros Hk. rewrite close_run.
  assert (run respond Browser.release self t = (Returned tt, self, t)) as ->.
  { destruct self as [cfg p b d]. simpl in Hk. subst.
    unfold Browser.release. simpl. rewrite Hk. reflexivity. }
  simpl. auto.
Qed.

Lemma close_keep_alive_witness :
  run world_down Browser.close (connected keep_alive 3 4) [] =
    (Returned tt, cleared (connected keep_alive 3 4), [] ++ [gc_collect]) /\
  playwright_browser (cleared (connected keep_alive 3 4)) = Bound None /\
  playwright (cleared (connected keep_alive 3 4)) = Bound None.
Proof. apply close_keep_alive. reflexivity. Defined.

(** C10. With the flag unset, when the browser's [close] raises, the
    driver's [stop] is not called: the calls are the failed [close], the
    debug line and the collector.  No exception escapes and both references
    are [None] afterwards, whether or not a driver was held. *)
Theorem close_skips_stop_when_browser_close_raises (respond : world) self t b
    (e : playwright_error) :
  _force_keep_browser_alive (config self) = false ->
  playwright_browser self = Bound (Some b) ->
  respond t (PlaywrightBrowser_close b) = inr e ->
  let new := [ PlaywrightBrowser_close b;
               logger DEBUG ("Failed to close browser properly: "
                             ++ str (PlaywrightError e));
               gc_collect ] in
  run respond Browser.close self t = (Returned tt, cleared self, t ++ new) /\
  (forall p, ~ In (Playwright_stop p) new) /\
  playwright_browser (cleared self) = Bound None /\
  playwright (cleared self) = Bound None.
Proof.
  intros Hk Hb He new. split; [| split; [| split; reflexivity]].
  - rewrite close_run.
    assert (run respond Browser.release self t =
            (Raised (PlaywrightError e), self,
             t ++ [PlaywrightBrowser_close b])) as ->.
    { destruct self as [cfg p b' d]. simpl in Hk, Hb. subst.
      unfold Browser.release. simpl. rewrite Hk. simpl. rewrite He.
      reflexivity. }
    simpl. rewrite <- app_assoc. reflexivity.
  - intros p [H | [H | [H | []]]]; discriminate H.
Qed.

Lemma close_skips_stop_witness :
  let new := [ PlaywrightBrowser_close 4;
               logger DEBUG ("Failed to close browser properly: "
                             ++ str (PlaywrightError (Error "Target closed")));
               gc_collect ] in
  run world_down Browser.close (connected BrowserConfig_default 3 4) [] =
    (Returned tt, cleared (connected BrowserConfig_default 3 4), [] ++ new) /\
  (forall p, ~ In (Playwright_stop p) new) /\
  playwright_browser (cleared (connected BrowserConfig_default 3 4))
    = Bound None /\
  playwright (cleared (connected BrowserConfig_default 3 4)) = Bound None.
Proof.
  apply close_skips_stop_when_browser_close_raises; reflexivity.
Defined.

(** ** get_playwright_browser *)

(** C6. When a handle is stored, [get_playwright_browser] returns it: no
    call is made (the trace is unchanged, so no driver start and no
    strategy), and the object is unchanged. *)
Theorem get_playwright_browser_idempotent respond self t b :
  playwright_browser self = Bound (Some b) ->
  run respond Browser.get_playwright_browser self t =
    (Returned (Some b), self, t).
Proof.
  intros Hb. unfold Browser.get_playwright_browser. simpl.
  rewrite Hb. simpl. rewrite Hb. reflexivity.
Qed.

Lemma get_playwright_browser_idempotent_witness :
  run world_up Browser.get_playwright_browser
    (connected BrowserConfig_default 3 4) [logger DEBUG "Initializing new browser"] =
    (Returned (Some 4), connected BrowserConfig_default 3 4,
     [logger DEBUG "Initializing new browser"]).
Proof. apply get_playwright_browser_idempotent. reflexivity. Defined.

(** ** The strategies leave [self] alone *)

Lemma reads_only_poll_once : reads_only Browser.poll_once.
Proof.
  unfold Browser.poll_once.
  apply reads_only_bind.
  - apply reads_only_try_except.
    + simpl. intros [response | e]; simpl; [| exact I].
      destruct (status_code response =? 200)%Z; exact I.
    + intros e. destruct (isinstance_requests_ConnectionError e); exact I.
  - intros [|]; simpl; auto.
Qed.

Lemma reads_only_launch_and_attach cfg playwright :
  reads_only (Browser.launch_and_attach cfg playwright).
Proof.
  unfold Browser.launch_and_attach.
  apply reads_only_bind; [simpl; intros [u | m]; exact I |]. intros _.
  apply reads_only_bind;
    [apply reads_only_for_range, reads_only_poll_once |]. intros _.
  apply reads_only_try_except.
  - simpl. intros [browser | e]; exact I.
  - intros e. simpl. auto.
Qed.

Lemma reads_only_setup_browser_with_instance playwright :
  reads_only (Browser._setup_browser_with_instance playwright).
Proof.
  unfold Browser._setup_browser_with_instance.
  apply reads_only_bind; [simpl; auto |]. intros cfg.
  destruct (negb (truthy (chrome_instance_path cfg))); [exact I |].
  apply reads_only_bind.
  - apply reads_only_try_except.
    + simpl. intros [response | e]; simpl; [| exact I].
      destruct (status_code response =? 200)%Z; simpl; [| exact I].
      intros _ [browser | e]; exact I.
    + intros e. destruct (isinstance_requests_ConnectionError e); simpl; auto.
  - intros [browser |]; [exact I | apply reads_only_launch_and_attach].
Qed.

Lemma reads_only_setup_browser playwright :
  reads_only (Browser._setup_browser playwright).
Proof.
  unfold Browser._setup_browser.
  apply reads_only_try_except; [| intros e; simpl; auto].
  apply reads_only_bind; [simpl; auto |]. intros cfg.
  destruct (truthy (cdp_url cfg)).
  { unfold Browser._setup_cdp. simpl. intros self.
    destruct (negb (truthy (cdp_url (config self)))); simpl; [exact I |].
    intros _ [browser | e]; exact I. }
  destruct (truthy (wss_url cfg)).
  { unfold Browser._setup_wss. simpl. intros self.
    destruct (negb (truthy (wss_url (config self)))); simpl; [exact I |].
    intros _ [browser | e]; exact I. }
  destruct (truthy (chrome_instance_path cfg)).
  { apply reads_only_setup_browser_with_instance. }
  unfold Browser._setup_standard_browser. simpl.
  intros self self' [browser | e]; exact I.
Qed.

Lemma run_self_playwright_browser respond self t v :
  playwright_browser self = Bound v ->
  run respond self_playwright_browser self t = (Returned v, self, t).
Proof. intros H. simpl. rewrite H. reflexivity. Qed.

Lemma init_unfold :
  Browser._init = Vis async_playwright_start _init_resumed.
Proof. reflexivity. Qed.

Lemma run_get_playwright_browser_first respond self t :
  playwright_browser self = Bound None ->
  run respond Browser.get_playwright_browser self t =
  run respond (_init_resumed (respond t async_playwright_start)) self
      (t ++ [async_playwright_start]).
Proof.
  intros Hb. unfold Browser.get_playwright_browser.
  rewrite run_bind, (run_self_playwright_browser _ _ _ Hb), init_unfold.
  reflexivity.
Qed.

Lemma run_init_resumed respond self t (playwright0 : Playwright) :
  run respond (_init_resumed (inl playwright0)) self t =
  let '(o, self', t') :=
    run respond (Browser._setup_browser playwright0) self t in
  match o with
  | Returned browser =>
      (Returned (Some browser),
       set_playwright_browser (Bound (Some browser))
         (set_playwright (Bound (Some playwright0)) self'),
       t')
  | Raised e => (Raised e, self', t')
  end.
Proof.
  unfold _init_resumed. simpl returned. cbn [bind].
  rewrite run_bind.
  destruct (run respond (Browser._setup_browser playwright0) self t)
    as [[[browser | e] self'] t']; reflexivity.
Qed.

(** C7. When the strategy raises, [get_playwright_browser] raises the same
    exception and the object is what it was before the call: nothing is
    stored, both references are still [None].  A retry starts over: it
    starts a driver again and runs [_init] from that unchanged state. *)
Theorem get_playwright_browser_failure_stores_nothing (respond : world) self t
    (playwright0 : Playwright) e self' t' :
  playwright_browser self = Bound None ->
  playwright self = Bound None ->
  respond t async_playwright_start = inl playwright0 ->
  run respond (Browser._setup_browser playwright0) self
      (t ++ [async_playwright_start]) = (Raised e, self', t') ->
  run respond Browser.get_playwright_browser self t = (Raised e, self, t') /\
  playwright_browser self = Bound None /\
  playwright self = Bound None /\
  run respond Browser.get_playwright_browser self t' =
    run respond (_init_resumed (respond t' async_playwright_start)) self
        (t' ++ [async_playwright_start]).
Proof.
  intros Hb Hp Hstart Hsetup.
  pose proof (@run_reads_only respond _ (Browser._setup_browser playwright0)
                self (t ++ [async_playwright_start])
                (reads_only_setup_browser playwright0)) as Hsame.
  rewrite Hsetup in Hsame. simpl in Hsame. subst self'.
  repeat split; auto.
  - rewrite (run_get_playwright_browser_first _ _ _ Hb), Hstart.
    rewrite run_init_resumed, Hsetup. reflexivity.
  - apply run_get_playwright_browser_first, Hb.
Qed.

Lemma get_playwright_browser_failure_witness :
  let self := fresh (with_chrome "/usr/bin/google-chrome") in
  let t' := snd (run world_down (Browser._setup_browser 0) self
                   ([] ++ [async_playwright_start])) in
  run world_down Browser.get_playwright_browser self [] =
    (Raised (RuntimeError Browser.chrome_debug_advice), self, t') /\
  playwright_browser self = Bound None /\
  playwright self = Bound None /\
  run world_down Browser.get_playwright_browser self t' =
    run world_down (_init_resumed (world_down t' async_playwright_start)) self
        (t' ++ [async_playwright_start]).
Proof.
  intros self t'.
  apply (@get_playwright_browser_failure_stores_nothing
           world_down self [] 0 (RuntimeError Browser.chrome_debug_advice)
           self t');
    reflexivity.
Defined.

(** ** The reuse-or-launch strategy *)

Section Instance.

Variable respond : world.

Lemma run_poll_once self t :
  run respond Browser.poll_once self t =
  match respond t probe with
  | inl response =>
      if (status_code response =? 200)%Z then
        (Returned Break, self, t ++ [probe])
      else (Returned Continue, self, t ++ [probe; asyncio_sleep 1])
  | inr e =>
      if is_ConnectionError (req_class e) then
        (Returned Continue, self, t ++ [probe; asyncio_sleep 1])
      else (Raised (RequestException e), self, t ++ [probe])
  end.
Proof.
  unfold Browser.poll_once, probe. simpl.
  destruct (respond t (requests_get Browser.version_url 2)) as [response | e];
    simpl.
  - destruct (status_code response =? 200)%Z; simpl;
      rewrite <- ?app_assoc; reflexivity.
  - destruct (is_ConnectionError (req_class e)); simpl;
      rewrite <- ?app_assoc; reflexivity.
Qed.

Lemma run_poll_once_refused self t :
  refused (respond t probe) = true ->
  run respond Browser.poll_once self t =
    (Returned Continue, self, t ++ [probe; asyncio_sleep 1]).
Proof.
  intros H. rewrite run_poll_once.
  destruct (respond t probe) as [response | e]; simpl in H.
  - destruct (status_code response =? 200)%Z; [discriminate | reflexivity].
  - rewrite H. reflexivity.
Qed.

(** While every probe is refused the loop goes its full length. *)
Lemma run_for_range_refused n self t :
  (forall h, refused (respond h probe) = true) ->
  run respond (for_range n Browser.poll_once) self t =
    (Returned tt, self, t ++ polled n).
Proof.
  intros Hdown. revert t.
  induction n as [| n IH]; intros t.
  - simpl. rewrite app_nil_r. reflexivity.
  - rewrite for_range_S, run_bind, run_poll_once_refused by apply Hdown.
    rewrite IH, <- app_assoc. reflexivity.
Qed.

(** In any world the loop probes at most [n] times, sleeps one second after
    each probe that was refused, and stops at the first probe that was not. *)
Lemma run_for_range_any n self t :
  exists o k,
    run respond (for_range n Browser.poll_once) self t
      = (o, self, t ++ polled k ++ if (k <? n)%nat then [probe] else []) /\
    k <= n /\
    (k = n -> o = Returned tt).
Proof.
  revert t. induction n as [| n IH]; intros t.
  - exists (Returned tt), 0. simpl. rewrite app_nil_r. auto.
  - rewrite for_range_S, run_bind, run_poll_once.
    destruct (respond t probe) as [response | e].
    + destruct (status_code response =? 200)%Z.
      * exists (Returned tt), 0. simpl. split; [reflexivity |].
        split; [lia | discriminate].
      * destruct (IH (t ++ [probe; asyncio_sleep 1])) as (o & k & Hrun & Hk & Ho).
        exists o, (S k). rewrite Hrun. simpl polled.
        rewrite <- app_assoc. simpl.
        replace (S k <=? n)%nat with (k <? n)%nat by reflexivity.
        split; [reflexivity |]. split; [lia |]. intros H. apply Ho. lia.
    + destruct (is_ConnectionError (req_class e)).
      * destruct (IH (t ++ [probe; asyncio_sleep 1])) as (o & k & Hrun & Hk & Ho).
        exists o, (S k). rewrite Hrun. simpl polled.
        rewrite <- app_assoc. simpl.
        replace (S k <=? n)%nat with (k <? n)%nat by reflexivity.
        split; [reflexivity |]. split; [lia |]. intros H. apply Ho. lia.
      * exists (Raised (RequestException e)), 0. simpl.
        split; [reflexivity |]. split; [lia | discriminate].
Qed.

Lemma run_wait_for_endpoint_self self t :
  snd (fst (run respond Browser.wait_for_endpoint self t)) = self.
Proof.
  destruct (run_for_range_any 10 self t) as (o & k & Hrun & _).
  unfold Browser.wait_for_endpoint. rewrite Hrun. reflexivity.
Qed.

Lemma run_launch_and_attach cfg (playwright0 : Playwright) self t :
  run respond (Browser.launch_and_attach cfg playwright0) self t =
  match respond t (spawn cfg) with
  | inr m => (Raised (OSError m), self, t ++ [spawn cfg])
  | inl _ =>
      let waited :=
        run respond Browser.wait_for_endpoint self (t ++ [spawn cfg]) in
      match fst (fst waited) with
      | Raised e => (Raised e, self, snd waited)
      | Returned _ =>
          match respond (snd waited) (attach playwright0) with
          | inl browser =>
              (Returned browser, self, snd waited ++ [attach playwright0])
          | inr e =>
              (Raised (RuntimeError Browser.chrome_debug_advice), self,
               snd waited
               ++ [ attach playwright0;
                    logger ERROR ("Failed to start a new Chrome instance.: "
                                  ++ str (PlaywrightError e)) ])
          end
      end
  end.
Proof.
  unfold Browser.launch_and_attach. rewrite run_bind.
  change (run respond (Popen _ DEVNULL DEVNULL) self t)
    with (run respond (returned OSError (respond t (spawn cfg))) self
            (t ++ [spawn cfg])).
  destruct (respond t (spawn cfg)) as [u | m]; simpl returned; cbn [run];
    [| reflexivity].
  rewrite run_bind. cbv zeta.
  pose proof (run_wait_for_endpoint_self self (t ++ [spawn cfg])) as Hself.
  destruct (run respond Browser.wait_for_endpoint self (t ++ [spawn cfg]))
    as [[[u' | e] s] t1]; simpl in Hself; subst s; cbn [fst snd];
    [| reflexivity].
  rewrite run_try_except. simpl.
  change (chromium_connect_over_cdp playwright0 Browser.local_endpoint
            (Some 20000%Z)) with (attach playwright0).
  destruct (respond t1 (attach playwright0)) as [browser | e]; simpl.
  - reflexivity.
  - rewrite <- app_assoc. reflexivity.
Qed.

Lemma run_setup_browser_with_instance (playwright0 : Playwright) self t :
  truthy (chrome_instance_path (config self)) = true ->
  run respond (Browser._setup_browser_with_instance playwright0) self t =
  match respond t probe with
  | inl response =>
      if (status_code response =? 200)%Z then
        let t1 := t ++ [probe; logger INFO "Reusing existing Chrome instance"] in
        match respond t1 (attach playwright0) with
        | inl browser => (Returned browser, self, t1 ++ [attach playwright0])
        | inr e => (Raised (PlaywrightError e), self, t1 ++ [attach playwright0])
        end
      else
        run respond (Browser.launch_and_attach (config self) playwright0) self
            (t ++ [probe])
  | inr e =>
      if is_ConnectionError (req_class e) then
        run respond (Browser.launch_and_attach (config self) playwright0) self
            (t ++ [ probe;
                    logger DEBUG
                      "No existing Chrome instance found, starting a new one" ])
      else (Raised (RequestException e), self, t ++ [probe])
  end.
Proof.
  intros Hpath. unfold Browser._setup_browser_with_instance.
  rewrite run_bind. cbn [self_config run]. rewrite Hpath. cbn [negb].
  rewrite run_bind, run_try_except. cbn [bind get run].
  change (requests_get Browser.version_url 2) with probe.
  destruct (respond t probe) as [response | e]; simpl returned; cbn [bind run].
  - destruct (status_code response =? 200)%Z; cbn [bind log run];
      [| reflexivity].
    rewrite <- app_assoc. cbn [app].
    unfold await_connect_over_cdp. cbn [bind run]. cbv zeta.
    change (chromium_connect_over_cdp playwright0 Browser.local_endpoint
              (Some 20000%Z)) with (attach playwright0).
    destruct (respond _ (attach playwright0)) as [browser | e]; reflexivity.
  - unfold isinstance_requests_ConnectionError.
    destruct (is_ConnectionError (req_class e)); cbn [bind log run];
      [| reflexivity].
    rewrite <- app_assoc. reflexivity.
Qed.

End Instance.

Lemma count_app f (a b : trace) : count f (a ++ b) = count f a + count f b.
Proof. unfold count. rewrite filter_app, length_app. reflexivity. Qed.

Lemma polled_calls n c : In c (polled n) -> c = probe \/ c = asyncio_sleep 1.
Proof.
  induction n as [| n IH]; simpl; [intros [] |].
  intros [H | [H | H]]; auto.
Qed.

Lemma count_attach_polled n : count is_attach (polled n) = 0.
Proof. induction n as [| n IH]; simpl; auto. Qed.

Lemma count_spawn_polled n : count is_spawn (polled n) = 0.
Proof. induction n as [| n IH]; simpl; auto. Qed.

Lemma count_start_polled n : count is_start (polled n) = 0.
Proof. induction n as [| n IH]; simpl; auto. Qed.

Lemma count_probe_polled n : count is_probe (polled n) = n.
Proof.
  induction n as [| n IH]; [reflexivity |].
  change (count is_probe (polled (S n))) with (S (count is_probe (polled n))).
  rewrite IH. reflexivity.
Qed.

(** C9. When the first probe of the local endpoint answers 200, the strategy
    makes three calls: the probe, the info line and one attach over CDP to
    the local endpoint with the 20 s timeout.  [subprocess.Popen] is not
    among them, and the strategy ends with what the attach gave: the browser
    it returned, or the error it raised. *)
Theorem reachable_endpoint_is_reused_without_spawn (respond : world)
    (playwright0 : Playwright) self t response :
  truthy (chrome_instance_path (config self)) = true ->
  respond t probe = inl response ->
  status_code response = 200%Z ->
  let before := t ++ [probe; logger INFO "Reusing existing Chrome instance"] in
  let new := [ probe; logger INFO "Reusing existing Chrome instance";
               attach playwright0 ] in
  run respond (Browser._setup_browser_with_instance playwright0) self t =
    (match respond before (attach playwright0) with
     | inl browser => Returned browser
     | inr e => Raised (PlaywrightError e)
     end, self, t ++ new) /\
  count is_spawn new = 0 /\
  (forall args out err, ~ In (subprocess_Popen args out err) new).
Proof.
  intros Hpath Hprobe Hstatus before new.
  split; [| split; [reflexivity |]].
  - rewrite run_setup_browser_with_instance, Hprobe, Hstatus by exact Hpath.
    cbn [Z.eqb Pos.eqb]. cbv zeta. fold before.
    replace (t ++ new) with (before ++ [attach playwright0])
      by (unfold before, new; rewrite <- app_assoc; reflexivity).
    destruct (respond before (attach playwright0)); reflexivity.
  - intros args out err [H | [H | [H | []]]]; discriminate H.
Qed.

Lemma reachable_endpoint_witness :
  let self := fresh (with_chrome "/usr/bin/google-chrome") in
  let before := [] ++ [probe; logger INFO "Reusing existing Chrome instance"] in
  let new := [ probe; logger INFO "Reusing existing Chrome instance";
               attach 7 ] in
  run world_up (Browser._setup_browser_with_instance 7) self [] =
    (match world_up before (attach 7) with
     | inl browser => Returned browser
     | inr e => Raised (PlaywrightError e)
     end, self, [] ++ new) /\
  count is_spawn new = 0 /\
  (forall args out err, ~ In (subprocess_Popen args out err) new).
Proof.
  apply (@reachable_endpoint_is_reused_without_spawn world_up 7
           (fresh (with_chrome "/usr/bin/google-chrome")) []
           {| status_code := 200 |}); reflexivity.
Defined.

(** Where nothing listens on the port, the specification's reading holds:
    the attach fails too. *)
Lemma unreachable_endpoint_is_fatal_when_nothing_listens :
  unreachable_endpoint_is_fatal world_down 0
    (fresh (with_chrome "/usr/bin/google-chrome")) [].
Proof.
  intros _.
  exists (RuntimeError Browser.chrome_debug_advice),
         (reuse_check (world_down [] probe)),
         (polled 10
          ++ [ attach 0;
               logger ERROR ("Failed to start a new Chrome instance.: "
                             ++ "connect ECONNREFUSED") ]).
  repeat split; reflexivity.
Qed.

(** C4 as stated fails.  The port answers every probe with 503, so no probe
    ever finds the endpoint, and yet the attach after the ten polls goes
    through: the strategy returns the browser and raises nothing. *)
Lemma ten_refused_polls_need_not_be_fatal :
  run world_busy (Browser._setup_browser_with_instance 0)
      (fresh (with_chrome "/usr/bin/google-chrome")) []
    = (Returned 0, fresh (with_chrome "/usr/bin/google-chrome"),
       reuse_check (world_busy [] probe)
       ++ spawn (with_chrome "/usr/bin/google-chrome") :: polled 10
       ++ [attach 0]) /\
  ~ unreachable_endpoint_is_fatal world_busy 0
      (fresh (with_chrome "/usr/bin/google-chrome")) [].
Proof.
  assert (run world_busy (Browser._setup_browser_with_instance 0)
              (fresh (with_chrome "/usr/bin/google-chrome")) []
            = (Returned 0, fresh (with_chrome "/usr/bin/google-chrome"),
               reuse_check (world_busy [] probe)
               ++ spawn (with_chrome "/usr/bin/google-chrome") :: polled 10
               ++ [attach 0])) as Hrun by reflexivity.
  split; [exact Hrun |].
  intros Hfatal.
  destruct Hfatal as (e & before & after & Hraised & _);
    [intros h; reflexivity |].
  rewrite Hrun in Hraised. discriminate Hraised.
Qed.

(** C4, amended.  The loop after the spawn probes at most ten times in any
    world, sleeping one second after every probe that was refused and
    stopping at the first that was not.  When the reuse check and every poll
    are refused (a connection error or a status other than 200) and the
    spawn works, the strategy probes exactly ten times after the spawn, with
    a one-second sleep after each, and then tries the attach once.  That
    attach decides: if it raises, the strategy logs it and raises the
    RuntimeError that tells to close the running Chrome instances; if it
    returns, the strategy returns the browser. *)
Theorem ten_refused_polls_then_attach_decides (respond : world)
    (playwright0 : Playwright) self t :
  (exists o k,
     run respond Browser.wait_for_endpoint self t =
       (o, self, t ++ polled k ++ if (k <? 10)%nat then [probe] else []) /\
     count is_probe (polled k ++ if (k <? 10)%nat then [probe] else []) <= 10) /\
  (truthy (chrome_instance_path (config self)) = true ->
   (forall h, refused (respond h probe) = true) ->
   let before := reuse_check (respond t probe) in
   let waited := t ++ before ++ spawn (config self) :: polled 10 in
   respond (t ++ before) (spawn (config self)) = inl tt ->
   run respond (Browser._setup_browser_with_instance playwright0) self t =
     match respond waited (attach playwright0) with
     | inl browser => (Returned browser, self, waited ++ [attach playwright0])
     | inr e =>
         (Raised (RuntimeError Browser.chrome_debug_advice), self,
          waited
          ++ [ attach playwright0;
               logger ERROR ("Failed to start a new Chrome instance.: "
                             ++ str (PlaywrightError e)) ])
     end /\
   count is_spawn before = 0 /\
   count is_probe (polled 10) = 10 /\
   count is_spawn (polled 10) = 0 /\
   count is_attach (polled 10) = 0).
Proof.
  split.
  - destruct (run_for_range_any respond 10 self t) as (o & k & Hrun & Hk & _).
    exists o, k. split; [exact Hrun |].
    rewrite count_app, count_probe_polled.
    destruct (k <? 10)%nat eqn:Hlt; simpl.
    + apply Nat.ltb_lt in Hlt. unfold count. simpl. lia.
    + unfold count. simpl. lia.
  - intros Hpath Hdown before waited Hspawn.
    split; [| split; [| split; [| split]]].
    + rewrite run_setup_browser_with_instance by exact Hpath.
      assert (run respond
                (Browser.launch_and_attach (config self) playwright0) self
                (t ++ before)
              = match respond waited (attach playwright0) with
                | inl browser =>
                    (Returned browser, self, waited ++ [attach playwright0])
                | inr e =>
                    (Raised (RuntimeError Browser.chrome_debug_advice), self,
                     waited
                     ++ [ attach playwright0;
                          logger ERROR
                            ("Failed to start a new Chrome instance.: "
                             ++ str (PlaywrightError e)) ])
                end) as Hlaunch.
      { rewrite run_launch_and_attach, Hspawn. cbv zeta.
        unfold Browser.wait_for_endpoint.
        rewrite run_for_range_refused by exact Hdown. cbn [fst snd].
        replace (((t ++ before) ++ [spawn (config self)]) ++ polled 10)
          with waited
          by (unfold waited; rewrite <- !app_assoc; reflexivity).
        destruct (respond waited (attach playwright0)); reflexivity. }
      pose proof (Hdown t) as Hfirst. unfold before, reuse_check in Hlaunch.
      destruct (respond t probe) as [response | e0]; simpl in Hfirst.
      * destruct (status_code response =? 200)%Z; [discriminate |].
        exact Hlaunch.
      * rewrite Hfirst. exact Hlaunch.
    + unfold before, reuse_check.
      destruct (respond t probe); reflexivity.
    + apply count_probe_polled.
    + apply count_spawn_polled.
    + apply count_attach_polled.
Qed.

Lemma ten_refused_polls_witness :
  let self := fresh (with_chrome "/usr/bin/google-chrome") in
  let before := reuse_check (world_down [] probe) in
  let waited := [] ++ before ++ spawn (config self) :: polled 10 in
  run world_down (Browser._setup_browser_with_instance 0) self [] =
    match world_down waited (attach 0) with
    | inl browser => (Returned browser, self, waited ++ [attach 0])
    | inr e =>
        (Raised (RuntimeError Browser.chrome_debug_advice), self,
         waited
         ++ [ attach 0;
              logger ERROR ("Failed to start a new Chrome instance.: "
                            ++ str (PlaywrightError e)) ])
    end /\
  count is_spawn before = 0 /\
  count is_probe (polled 10) = 10 /\
  count is_spawn (polled 10) = 0 /\
  count is_attach (polled 10) = 0.
Proof.
  apply (proj2 (ten_refused_polls_then_attach_decides world_down 0
                  (fresh (with_chrome "/usr/bin/google-chrome")) []));
    reflexivity.
Defined.

(** C3 on the code: a probe that runs into its two-second read timeout
    raises [requests.ReadTimeout], which is not a [requests.ConnectionError];
    neither [except] clause catches it.  At the first probe it ends the
    strategy before anything is spawned; in the polling loop it ends the loop
    at that probe instead of going on to the next attempt. *)
Theorem read_timeout_escapes_the_probe (respond : world)
    (playwright0 : Playwright) self t e :
  truthy (chrome_instance_path (config self)) = true ->
  respond t probe = inr e ->
  req_class e = ReadTimeout ->
  run respond (Browser._setup_browser_with_instance playwright0) self t =
    (Raised (RequestException e), self, t ++ [probe]) /\
  run respond Browser.wait_for_endpoint self t =
    (Raised (RequestException e), self, t ++ [probe]).
Proof.
  intros Hpath Hprobe Hclass. split.
  - rewrite run_setup_browser_with_instance, Hprobe, Hclass by exact Hpath.
    reflexivity.
  - unfold Browser.wait_for_endpoint.
    rewrite for_range_S, run_bind, run_poll_once, Hprobe, Hclass.
    reflexivity.
Qed.

Lemma read_timeout_witness :
  let self := fresh (with_chrome "/usr/bin/google-chrome") in
  let e := {| req_class := ReadTimeout; req_message := "Read timed out." |} in
  run world_stalled (Browser._setup_browser_with_instance 0) self [] =
    (Raised (RequestException e), self, [] ++ [probe]) /\
  run world_stalled Browser.wait_for_endpoint self [] =
    (Raised (RequestException e), self, [] ++ [probe]).
Proof.
  apply read_timeout_escapes_the_probe; reflexivity.
Defined.

(** ** Strategy selection *)

Section Selection.

Variable respond : world.

Lemma launch_and_attach_calls cfg (playwright0 : Playwright) self t :
  exists o new,
    run respond (Browser.launch_and_attach cfg playwright0) self t
      = (o, self, t ++ new) /\
    (forall c st, In c new -> owner c = Some st -> st = LocalInstanceAttach) /\
    count is_attach new <= 1 /\
    (forall browser, o = Returned browser -> count is_attach new = 1) /\
    count is_start new = 0.
Proof.
  rewrite run_launch_and_attach.
  destruct (respond t (spawn cfg)) as [u | m].
  - cbv zeta. unfold Browser.wait_for_endpoint.
    destruct (run_for_range_any respond 10 self (t ++ [spawn cfg]))
      as (o & k & Hrun & _).
    rewrite Hrun. cbn [fst snd].
    set (seen := polled k ++ (if (k <? 10)%nat then [probe] else [])) in *.
    assert (forall c st, In c seen -> owner c = Some st ->
                         st = LocalInstanceAttach) as Hseen.
    { intros c st Hin Hown. unfold seen in Hin. apply in_app_or in Hin.
      destruct Hin as [Hin | Hin].
      - apply polled_calls in Hin. destruct Hin; subst c; simpl in Hown;
          congruence.
      - destruct (k <? 10)%nat; simpl in Hin; [| contradiction].
        destruct Hin as [<- | []]. simpl in Hown. congruence. }
    assert (count is_attach seen = 0) as Hnone.
    { unfold seen. rewrite count_app, count_attach_polled.
      destruct (k <? 10)%nat; reflexivity. }
    assert (count is_start seen = 0) as Hnostart.
    { unfold seen. rewrite count_app, count_start_polled.
      destruct (k <? 10)%nat; reflexivity. }
    destruct o as [u' | e].
    + destruct (respond _ (attach playwright0)) as [browser | e].
      * exists (Returned browser), ([spawn cfg] ++ seen ++ [attach playwright0]).
        rewrite <- !app_assoc. split; [reflexivity |]. split.
        -- intros c st Hin Hown. apply in_app_or in Hin.
           destruct Hin as [[<- | []] | Hin]; [simpl in Hown; congruence |].
           apply in_app_or in Hin. destruct Hin as [Hin | [<- | []]];
             [eapply Hseen; eauto | simpl in Hown; congruence].
        -- rewrite !count_app, Hnone, Hnostart. unfold count, spawn, attach.
           simpl. auto.
      * eexists _, ([spawn cfg] ++ seen ++ [attach playwright0; _]).
        rewrite <- !app_assoc. split; [reflexivity |]. split.
        -- intros c st Hin Hown. apply in_app_or in Hin.
           destruct Hin as [[<- | []] | Hin]; [simpl in Hown; congruence |].
           apply in_app_or in Hin.
           destruct Hin as [Hin | [<- | [<- | []]]];
             [eapply Hseen; eauto | simpl in Hown; congruence
             | simpl in Hown; congruence].
        -- rewrite !count_app, Hnone, Hnostart. unfold count, spawn, attach.
           simpl. repeat split; auto; discriminate.
    + exists (Raised e), ([spawn cfg] ++ seen).
      rewrite <- !app_assoc. split; [reflexivity |]. split.
      * intros c st Hin Hown. apply in_app_or in Hin.
        destruct Hin as [[<- | []] | Hin]; [simpl in Hown; congruence |].
        eapply Hseen; eauto.
      * rewrite !count_app, Hnone, Hnostart. unfold count, spawn. simpl.
        repeat split; auto; discriminate.
  - exists (Raised (OSError m)), [spawn cfg]. split; [reflexivity |]. split.
    + intros c st [<- | []] Hown. simpl in Hown. congruence.
    + unfold count, spawn. simpl. repeat split; auto; discriminate.
Qed.

Lemma select_cases cfg :
  select cfg =
  if truthy (cdp_url cfg) then RemoteAttach
  else if truthy (wss_url cfg) then SocketAttach
  else if truthy (chrome_instance_path cfg) then LocalInstanceAttach
  else StandardLaunch.
Proof.
  unfold select, precedence. simpl.
  destruct (truthy (cdp_url cfg)); [reflexivity |].
  destruct (truthy (wss_url cfg)); [reflexivity |].
  destruct (truthy (chrome_instance_path cfg)); reflexivity.
Qed.

(** The source's [if]/[elif] chain runs the strategy [select] names. *)
Lemma setup_browser_dispatch (playwright0 : Playwright) self t :
  run respond (Browser._setup_browser playwright0) self t =
  run respond
    (try_except (execute (select (config self)) playwright0)
       (fun e =>
          log ERROR ("Failed to initialize Playwright browser: " ++ str e) ;;
          Raise e)) self t.
Proof.
  unfold Browser._setup_browser. rewrite !run_try_except, run_bind.
  cbn [self_config run]. rewrite select_cases.
  destruct (truthy (cdp_url (config self))); [reflexivity |].
  destruct (truthy (wss_url (config self))); [reflexivity |].
  destruct (truthy (chrome_instance_path (config self))); reflexivity.
Qed.

(** The strategy that was selected makes calls of its own kind only, and at
    most one connection attempt: exactly one when it returns a browser.  It
    never starts a driver. *)
Lemma selected_strategy_calls (playwright0 : Playwright) self t :
  exists o new,
    run respond (execute (select (config self)) playwright0) self t
      = (o, self, t ++ new) /\
    (forall c st, In c new -> owner c = Some st -> st = select (config self)) /\
    count is_attach new <= 1 /\
    (forall browser, o = Returned browser -> count is_attach new = 1) /\
    count is_start new = 0.
Proof.
  rewrite select_cases.
  destruct (truthy (cdp_url (config self))) eqn:Hcdp.
  { unfold execute, Browser._setup_cdp. simpl. rewrite Hcdp. simpl.
    destruct (respond _ (chromium_connect_over_cdp _ _ None))
      as [browser | e]; simpl;
      eexists _, [_; _]; rewrite <- app_assoc;
      (split; [reflexivity |]);
      (split; [| unfold count; simpl; repeat split; auto; discriminate]);
      intros c st [<- | [<- | []]] Hown; simpl in Hown; congruence. }
  destruct (truthy (wss_url (config self))) eqn:Hwss.
  { unfold execute, Browser._setup_wss. simpl. rewrite Hwss. simpl.
    destruct (respond _ (chromium_connect _ _)) as [browser | e]; simpl;
      eexists _, [_; _]; rewrite <- app_assoc;
      (split; [reflexivity |]);
      (split; [| unfold count; simpl; repeat split; auto; discriminate]);
      intros c st [<- | [<- | []]] Hown; simpl in Hown; congruence. }
  destruct (truthy (chrome_instance_path (config self))) eqn:Hpath.
  { unfold execute.
    rewrite run_setup_browser_with_instance by exact Hpath.
    destruct (respond t probe) as [response | e].
    - destruct (status_code response =? 200)%Z.
      + cbv zeta.
        destruct (respond _ (attach playwright0)) as [browser | e];
          eexists _, [_; _; _]; rewrite <- app_assoc;
          (split; [reflexivity |]);
          (split; [| unfold count, probe, attach; simpl;
                     repeat split; auto; discriminate]);
          intros c st [<- | [<- | [<- | []]]] Hown; simpl in Hown; congruence.
      + destruct (launch_and_attach_calls (config self) playwright0 self
                    (t ++ [probe]))
          as (o & new & Hrun & Hown & Hcount & Hone & Hstart).
        exists o, ([probe] ++ new). rewrite Hrun, <- app_assoc.
        split; [reflexivity |]. split.
        * intros c st Hin Hc. apply in_app_or in Hin.
          destruct Hin as [[<- | []] | Hin]; [simpl in Hc; congruence | eauto].
        * rewrite !count_app, Hstart. unfold count at 1 3 4. simpl. auto.
    - destruct (is_ConnectionError (req_class e)).
      + destruct (launch_and_attach_calls (config self) playwright0 self
                    (t ++ [ probe;
                            logger DEBUG
                              "No existing Chrome instance found, starting a new one" ]))
          as (o & new & Hrun & Hown & Hcount & Hone & Hstart).
        eexists o, ([probe; _] ++ new). rewrite Hrun, <- app_assoc.
        split; [reflexivity |]. split.
        * intros c st Hin Hc. apply in_app_or in Hin.
          destruct Hin as [[<- | [<- | []]] | Hin];
            [simpl in Hc; congruence | simpl in Hc; congruence | eauto].
        * rewrite !count_app, Hstart. unfold count at 1 3 4. simpl. auto.
      + eexists _, [probe]. split; [reflexivity |]. split.
        * intros c st [<- | []] Hc. simpl in Hc. congruence.
        * unfold count, probe. simpl. repeat split; auto; discriminate. }
  unfold execute, Browser._setup_standard_browser. simpl.
  destruct (respond t (chromium_launch _ _ _ _)) as [browser | e]; simpl;
    eexists _, [_];
    (split; [reflexivity |]);
    (split; [| unfold count; simpl; repeat split; auto; discriminate]);
    intros c st [<- | []] Hown; simpl in Hown; congruence.
Qed.

(** [_setup_browser] as a whole: the same, with the error line on failure. *)
Lemma setup_browser_calls (playwright0 : Playwright) self t :
  exists o new,
    run respond (Browser._setup_browser playwright0) self t
      = (o, self, t ++ new) /\
    (forall c st, In c new -> owner c = Some st -> st = select (config self)) /\
    count is_attach new <= 1 /\
    (forall browser, o = Returned browser -> count is_attach new = 1) /\
    count is_start new = 0.
Proof.
  rewrite setup_browser_dispatch, run_try_except.
  destruct (selected_strategy_calls playwright0 self t)
    as (o & new & Hrun & Hown & Hcount & Hone & Hstart).
  rewrite Hrun.
  destruct o as [browser | e].
  - exists (Returned browser), new. auto.
  - eexists (Raised e), (new ++ [_]). simpl. rewrite <- app_assoc.
    split; [reflexivity |]. split.
    + intros c st Hin Hc. apply in_app_or in Hin.
      destruct Hin as [Hin | [<- | []]]; [eauto | simpl in Hc; congruence].
    + rewrite !count_app, Hstart. unfold count at 2 4 5. simpl.
      repeat split; try lia; discriminate.
Qed.

End Selection.

(** C2. [_setup_browser] runs the one strategy that the precedence order
    names for the configuration (CDP URL, then WSS URL, then Chrome path,
    then standard launch) and logs and re-raises its error.  Every call it
    makes that belongs to a strategy belongs to that one, and it makes at
    most one connection attempt, whichever fields are set. *)
Theorem strategy_selection_follows_precedence (respond : world)
    (playwright0 : Playwright) self t :
  let chosen := select (config self) in
  chosen =
    (if truthy (cdp_url (config self)) then RemoteAttach
     else if truthy (wss_url (config self)) then SocketAttach
     else if truthy (chrome_instance_path (config self))
          then LocalInstanceAttach
     else StandardLaunch) /\
  run respond (Browser._setup_browser playwright0) self t =
    run respond
      (try_except (execute chosen playwright0)
         (fun e =>
            log ERROR ("Failed to initialize Playwright browser: " ++ str e) ;;
            Raise e)) self t /\
  exists new,
    snd (run respond (Browser._setup_browser playwright0) self t) = t ++ new /\
    (forall c st, In c new -> owner c = Some st -> st = chosen) /\
    count is_attach new <= 1.
Proof.
  intros chosen. subst chosen. split; [apply select_cases |].
  split; [apply setup_browser_dispatch |].
  destruct (setup_browser_calls respond playwright0 self t)
    as (o & new & Hrun & Hown & Hcount & _).
  exists new. rewrite Hrun. auto.
Qed.

(** ** Several callers *)

Section Callers.

Variable respond : world.

Lemma run_get_playwright_browser_stored self t b :
  playwright_browser self = Bound (Some b) ->
  run respond Browser.get_playwright_browser self t =
    (Returned (Some b), self, t).
Proof.
  intros Hb. unfold Browser.get_playwright_browser.
  rewrite run_bind, (run_self_playwright_browser _ _ _ Hb).
  apply run_self_playwright_browser, Hb.
Qed.

Lemma in_sequence_stored n self t b :
  playwright_browser self = Bound (Some b) ->
  in_sequence respond n Browser.get_playwright_browser self t =
    (repeat (Returned (Some b)) n, self, t).
Proof.
  intros Hb. induction n as [| n IH]; [reflexivity |].
  cbn [in_sequence]. rewrite (run_get_playwright_browser_stored _ _ Hb), IH.
  reflexivity.
Qed.

(** The first call on an object without a handle: what it returns is what
    the strategy returned, stored; it starts one driver and makes one
    connection attempt. *)
Lemma run_get_playwright_browser_creates self t b self1 t1 :
  playwright_browser self = Bound None ->
  run respond Browser.get_playwright_browser self t
    = (Returned (Some b), self1, t1) ->
  playwright_browser self1 = Bound (Some b) /\
  count is_start t1 = S (count is_start t) /\
  count is_attach t1 = S (count is_attach t).
Proof.
  intros Hb Hrun.
  rewrite (run_get_playwright_browser_first _ _ _ Hb) in Hrun.
  destruct (respond t async_playwright_start) as [playwright0 | e];
    [| discriminate Hrun].
  rewrite run_init_resumed in Hrun.
  destruct (setup_browser_calls respond playwright0 self
              (t ++ [async_playwright_start]))
    as (o & new & Hsetup & _ & _ & Hone & Hstart).
  rewrite Hsetup in Hrun.
  destruct o as [browser | e]; [| discriminate Hrun].
  inversion Hrun; subst. split; [reflexivity |].
  rewrite !count_app, Hstart, (Hone _ eq_refl).
  change (count is_start [async_playwright_start]) with 1.
  change (count is_attach [async_playwright_start]) with 0.
  lia.
Qed.

(** A caller that finds no handle is suspended at the driver start. *)
Lemma resume_get_playwright_browser_first self t :
  playwright_browser self = Bound None ->
  resume respond Browser.get_playwright_browser self t =
    (_init_resumed (respond t async_playwright_start), self,
     t ++ [async_playwright_start]).
Proof.
  intros Hb. unfold Browser.get_playwright_browser. simpl. rewrite Hb.
  reflexivity.
Qed.

Lemma replace_nth_app A (before after : list A) x y :
  replace_nth (length before) y (before ++ x :: after) = before ++ y :: after.
Proof. induction before as [| z before IH]; simpl; [| rewrite IH]; auto. Qed.

Lemma nth_error_middle A (before after : list A) x :
  nth_error (before ++ x :: after) (length before) = Some x.
Proof. induction before as [| z before IH]; simpl; auto. Qed.

Lemma suspended_S t n :
  suspended respond t (S n) =
  _init_resumed (respond t async_playwright_start)
  :: suspended respond (t ++ [async_playwright_start]) n.
Proof.
  unfold suspended. cbn [seq map repeat]. rewrite app_nil_r. f_equal.
  rewrite <- seq_shift, map_map. apply map_ext. intros i.
  cbn [repeat]. rewrite <- app_assoc. reflexivity.
Qed.

Lemma schedule_gather n : forall done self t,
  playwright_browser self = Bound None ->
  schedule respond (seq (length done) n) (done ++ callers n) self t =
    (done ++ suspended respond t n, self, t ++ repeat async_playwright_start n).
Proof.
  induction n as [| n IH]; intros done self t Hb.
  - unfold suspended. simpl. rewrite !app_nil_r. reflexivity.
  - cbn [seq schedule callers repeat]. unfold step.
    rewrite nth_error_middle, (resume_get_playwright_browser_first _ _ Hb),
      replace_nth_app.
    pose proof (IH (done ++ [_init_resumed (respond t async_playwright_start)])
                  self (t ++ [async_playwright_start]) Hb) as Hnext.
    rewrite length_app, Nat.add_1_r, <- !app_assoc in Hnext.
    cbn [app] in Hnext. unfold callers in Hnext.
    rewrite Hnext, (suspended_S t n).
    reflexivity.
Qed.

End Callers.

(** ** What a task can do in any interleaving *)

(** One step down the tree, leaving the loop and the strategies folded. *)
Ltac walk :=
  cbn [ensures bind try_except returned get Popen log self_config
       self_disable_security_args await_connect_over_cdp await_connect
       await_launch await_sleep isinstance_requests_ConnectionError].

Lemma ensures_mono A (p : Prog A) (returns returns' : A -> trace -> Prop)
    (raises raises' : exn -> trace -> Prop) made :
  (forall a l, returns a l -> returns' a l) ->
  (forall e l, raises e l -> raises' e l) ->
  ensures p returns raises made -> ensures p returns' raises' made.
Proof.
  intros Hr He. revert made.
  induction p as [a | e | c k IH | k IH | g k IH]; simpl; intros made H; auto.
Qed.

Lemma ensures_bind A B (p : Prog A) (f : A -> Prog B) returns raises made :
  ensures p (fun a l => ensures (f a) returns raises l) raises made ->
  ensures (bind p f) returns raises made.
Proof.
  revert made.
  induction p as [a | e | c k IH | k IH | g k IH]; simpl; intros made H; auto.
Qed.

Lemma ensures_try_except A (p : Prog A) (h : exn -> Prog A) returns raises
    made :
  ensures p returns (fun e l => ensures (h e) returns raises l) made ->
  ensures (try_except p h) returns raises made.
Proof.
  revert made.
  induction p as [a | e | c k IH | k IH | g k IH]; simpl; intros made H; auto.
Qed.

Lemma ensures_for_range n (body : Prog loop_exit) (inv : trace -> Prop)
    raises made :
  (forall l, inv l -> ensures body (fun _ l' => inv l') raises l) ->
  inv made ->
  ensures (for_range n body) (fun _ l => inv l) raises made.
Proof.
  intros Hbody. revert made.
  induction n as [| n IH]; intros made Hinv; [exact Hinv |].
  rewrite for_range_S. apply ensures_bind.
  eapply ensures_mono; [| | apply Hbody, Hinv]; [| auto].
  intros [|] l Hl; [apply IH, Hl | exact Hl].
Qed.

Ltac tally :=
  unfold one_attach_more, no_attach_more, probe, spawn, attach in *;
  rewrite ?count_app; unfold count in *; simpl; lia.

Lemma ensures_poll_once made0 made :
  no_attach_more made0 made ->
  ensures Browser.poll_once (fun _ l => no_attach_more made0 l)
    (fun _ _ => True) made.
Proof.
  intros Hm. unfold Browser.poll_once. walk.
  intros [response | e]; walk.
  - destruct (status_code response =? 200)%Z; walk; [tally |].
    intros _. tally.
  - destruct (is_ConnectionError (req_class e)); walk; [| exact I].
    intros _. tally.
Qed.

Lemma ensures_launch_and_attach cfg (playwright0 : Playwright) made0 made :
  no_attach_more made0 made ->
  ensures (Browser.launch_and_attach cfg playwright0)
    (fun _ l => one_attach_more made0 l) (fun _ _ => True) made.
Proof.
  intros Hm. unfold Browser.launch_and_attach. walk.
  intros [u | m]; walk; [| exact I].
  apply ensures_bind.
  apply ensures_mono with (returns := fun _ l => no_attach_more made0 l)
                          (raises := fun _ _ => True); [| auto |].
  - intros _ l Hl. walk. intros [browser | e]; walk; [tally | auto].
  - apply ensures_for_range with (inv := no_attach_more made0).
    + intros l Hl. apply ensures_poll_once, Hl.
    + tally.
Qed.

Lemma ensures_setup_browser_with_instance (playwright0 : Playwright) made :
  ensures (Browser._setup_browser_with_instance playwright0)
    (fun _ l => one_attach_more made l) (fun _ _ => True) made.
Proof.
  unfold Browser._setup_browser_with_instance. walk. intros self.
  destruct (negb (truthy (chrome_instance_path (config self))));
    walk; [exact I |].
  intros [response | e]; walk.
  - destruct (status_code response =? 200)%Z; walk.
    + intros _ [browser | e]; walk; [tally | exact I].
    + apply ensures_launch_and_attach. tally.
  - destruct (is_ConnectionError (req_class e)); walk; [| exact I].
    intros _. apply ensures_launch_and_attach. tally.
Qed.

Lemma ensures_setup_browser (playwright0 : Playwright) made :
  ensures (Browser._setup_browser playwright0)
    (fun _ l => one_attach_more made l) (fun _ _ => True) made.
Proof.
  unfold Browser._setup_browser.
  apply ensures_try_except.
  apply ensures_mono with (returns := fun _ l => one_attach_more made l)
                          (raises := fun _ _ => True);
    [auto | intros e l _; simpl; auto |].
  walk. intros self.
  destruct (truthy (cdp_url (config self))).
  { unfold Browser._setup_cdp. walk. intros self'.
    destruct (negb (truthy (cdp_url (config self')))); walk; [exact I |].
    intros _ [browser | e]; walk; [tally | exact I]. }
  destruct (truthy (wss_url (config self))).
  { unfold Browser._setup_wss. walk. intros self'.
    destruct (negb (truthy (wss_url (config self')))); walk; [exact I |].
    intros _ [browser | e]; walk; [tally | exact I]. }
  destruct (truthy (chrome_instance_path (config self))).
  { apply ensures_setup_browser_with_instance. }
  unfold Browser._setup_standard_browser. walk.
  intros self' self'' [browser | e]; walk; [tally | exact I].
Qed.

(** A caller suspended at its driver start can only return after exactly
    one connection attempt of its own, and without starting another
    driver. *)
Lemma ensures_init_resumed r :
  ensures (_init_resumed r) (fun _ l => one_attach_more [] l)
    (fun _ _ => True) [].
Proof.
  unfold _init_resumed. apply ensures_bind.
  destruct r as [playwright0 | e]; walk; [| exact I].
  apply ensures_bind.
  eapply ensures_mono; [| | apply ensures_setup_browser]; [| auto].
  intros browser l Hl. simpl. intros self.
  destruct (playwright_browser _); simpl; [exact I | exact Hl].
Qed.

Section Interleaving.

Variable respond : world.

(** Waking a task keeps what it [ensures], counted from the calls it has
    made by then. *)
Lemma resume_ensures A (p : Prog A) returns raises made self t :
  ensures p returns raises made ->
  exists new,
    snd (resume respond p self t) = t ++ new /\
    ensures (fst (fst (resume respond p self t))) returns raises
      (made ++ new).
Proof.
  revert made self t.
  induction p as [a | e | c k IH | k IH | g k IH]; intros made self t H;
    simpl in *.
  - exists []. rewrite !app_nil_r. auto.
  - exists []. rewrite !app_nil_r. auto.
  - destruct (awaited c).
    + exists [c]. simpl. auto.
    + destruct (IH (respond t c) (made ++ [c]) self (t ++ [c]) (H _))
        as (new & Ht & Hp).
      exists (c :: new). rewrite Ht, <- !app_assoc in *. auto.
  - apply IH, H.
  - apply IH, H.
Qed.

Lemma total_replace_nth f i made new (mades : list trace) :
  nth_error mades i = Some made ->
  total f (replace_nth i (made ++ new) mades) = total f mades + count f new.
Proof.
  revert i. induction mades as [| m mades IH]; intros [| i] H; simpl in H;
    try discriminate.
  - inversion H; subst. unfold total. simpl. rewrite count_app. lia.
  - unfold total in *. simpl. rewrite (IH i H). lia.
Qed.

Lemma length_replace_nth A i (x : A) l :
  length (replace_nth i x l) = length l.
Proof.
  revert i. induction l as [| y l IH]; intros [| i]; simpl; auto.
Qed.

Section Pool.

Variables (A : Type) (returns : A -> trace -> Prop)
          (raises : exn -> trace -> Prop).

Lemma step_ensures i (pool : list (Prog A)) mades self t :
  kept returns raises pool mades ->
  exists mades' new,
    kept returns raises (fst (fst (step respond i pool self t))) mades' /\
    snd (step respond i pool self t) = t ++ new /\
    length mades' = length mades /\
    forall f, total f mades' = total f mades + count f new.
Proof.
  intros Hkept. unfold step.
  destruct (nth_error pool i) as [p |] eqn:Hp.
  - assert (exists made, nth_error mades i = Some made /\
                         ensures p returns raises made) as (made & Hm & He).
    { clear -Hkept Hp. revert i Hp.
      induction Hkept as [| q m pool mades Hq _ IH]; intros [| i] Hp;
        simpl in Hp; try discriminate.
      - inversion Hp; subst. exists m. auto.
      - apply (IH i Hp). }
    destruct (resume_ensures p returns raises made self t He)
      as (new & Ht & Hens).
    destruct (resume respond p self t) as [[p' self'] t'].
    cbn [fst snd] in *. subst t'.
    exists (replace_nth i (made ++ new) mades), new.
    split; [| split; [reflexivity | split]].
    + clear -Hkept Hp Hm Hens. revert i Hp Hm.
      induction Hkept as [| q m pool mades Hq Hrest IH]; intros [| i] Hp Hm;
        simpl in Hp, Hm; try discriminate.
      * inversion Hp; inversion Hm; subst. constructor; assumption.
      * constructor; [assumption | apply (IH i Hp Hm)].
    + apply length_replace_nth.
    + intros f. apply total_replace_nth, Hm.
  - exists mades, []. cbn [fst snd]. rewrite app_nil_r.
    split; [assumption | split; [reflexivity | split; [reflexivity |]]].
    intros f. unfold count. simpl. lia.
Qed.

Lemma schedule_ensures order : forall (pool : list (Prog A)) mades self t,
  kept returns raises pool mades ->
  exists mades' new,
    kept returns raises
      (fst (fst (schedule respond order pool self t))) mades' /\
    snd (schedule respond order pool self t) = t ++ new /\
    length mades' = length mades /\
    forall f, total f mades' = total f mades + count f new.
Proof.
  induction order as [| i order IH]; intros pool mades self t Hkept.
  - exists mades, []. cbn [schedule fst snd]. rewrite app_nil_r.
    split; [assumption | split; [reflexivity | split; [reflexivity |]]].
    intros f. unfold count. simpl. lia.
  - cbn [schedule].
    destruct (step_ensures i self t Hkept)
      as (mades1 & new1 & Hkept1 & Ht1 & Hlen1 & Htot1).
    destruct (step respond i pool self t) as [[pool1 self1] t1].
    cbn [fst snd] in *. subst t1.
    destruct (IH pool1 mades1 self1 (t ++ new1) Hkept1)
      as (mades2 & new2 & Hkept2 & Ht2 & Hlen2 & Htot2).
    exists mades2, (new1 ++ new2).
    split; [assumption |]. split; [rewrite Ht2, app_assoc; reflexivity |].
    split; [congruence |].
    intros f. rewrite Htot2, Htot1, count_app. lia.
Qed.

End Pool.

Lemma schedule_app A (first second : list nat) (pool : list (Prog A)) self t :
  schedule respond (first ++ second) pool self t =
  let '(pool', self', t') := schedule respond first pool self t in
  schedule respond second pool' self' t'.
Proof.
  revert pool self t.
  induction first as [| i first IH]; intros pool self t; [reflexivity |].
  cbn [app schedule].
  destruct (step respond i pool self t) as [[pool1 self1] t1]. apply IH.
Qed.

Lemma suspended_ensure t n :
  kept (fun _ l => one_attach_more [] l) (fun _ _ => True)
    (suspended respond t n) (repeat [] n).
Proof.
  unfold kept, suspended.
  replace (repeat (@nil call) n)
    with (repeat (@nil call) (length (seq 0 n)))
    by (rewrite length_seq; reflexivity).
  induction (seq 0 n) as [| i l IH]; simpl; constructor;
    [apply ensures_init_resumed | exact IH].
Qed.

Lemma total_nothing_made f n : total f (repeat [] n) = 0.
Proof. induction n as [| n IH]; [reflexivity | exact IH]. Qed.

Lemma count_repeat_start n :
  count is_start (repeat async_playwright_start n) = n /\
  count is_attach (repeat async_playwright_start n) = 0.
Proof.
  induction n as [| n [IHs IHa]]; [split; reflexivity |].
  split.
  - change (count is_start (repeat async_playwright_start (S n)))
      with (S (count is_start (repeat async_playwright_start n))).
    rewrite IHs. reflexivity.
  - exact IHa.
Qed.

(** When every task of a pool of suspended callers has returned, each has
    made one connection attempt and started no driver. *)
Lemma returned_pool_totals (pool : list (Prog (option PlaywrightBrowser)))
    mades :
  kept (fun _ l => one_attach_more [] l) (fun _ _ => True) pool mades ->
  Forall (fun p => exists b, result p = Some (Returned b)) pool ->
  total is_attach mades = length mades /\ total is_start mades = 0.
Proof.
  intros Hkept. induction Hkept as [| p made pool mades Hp _ IH];
    intros Hdone; [split; reflexivity |].
  inversion Hdone as [| p' pool' [b Hb] Hrest]; subst.
  destruct (IH Hrest) as [IHa IHs].
  destruct p as [a | e | c k | k | g k]; simpl in Hb; try discriminate Hb.
  simpl in Hp. destruct Hp as [Hattach Hstart].
  unfold total in *. simpl. rewrite Hattach, Hstart, IHa, IHs.
  split; reflexivity.
Qed.

(** [n] gathered callers, all woken once and then in any order: once they
    have all returned, [n] drivers were started and [n] connection attempts
    were made. *)
Lemma gathered_callers_attach_each n order self t pool' self' t' :
  playwright_browser self = Bound None ->
  schedule respond (seq 0 n ++ order) (callers n) self t
    = (pool', self', t') ->
  Forall (fun p => exists b, result p = Some (Returned b)) pool' ->
  count is_start t' = count is_start t + n /\
  count is_attach t' = count is_attach t + n.
Proof.
  intros Hb Hrun Hdone.
  rewrite schedule_app in Hrun.
  pose proof (schedule_gather respond n [] self t Hb) as Hgather.
  cbn [app length] in Hgather. rewrite Hgather in Hrun. clear Hgather.
  pose proof (suspended_ensure t n) as Hkept.
  apply schedule_ensures
    with (order := order) (self := self)
         (t := t ++ repeat async_playwright_start n) in Hkept.
  destruct Hkept as (mades & new & Hkept & Ht & Hlen & Htot).
  rewrite Hrun in Hkept, Ht. cbn [fst snd] in Hkept, Ht. subst t'.
  destruct (returned_pool_totals Hkept Hdone) as [Hattach Hstart].
  rewrite Hlen, repeat_length in Hattach.
  pose proof (Htot is_attach) as Ha. pose proof (Htot is_start) as Hs.
  rewrite total_nothing_made in Ha, Hs.
  destruct (count_repeat_start n) as [Hns Hna].
  rewrite !count_app, Hns, Hna. lia.
Qed.

End Interleaving.

(** Two callers of which the second is woken only after the first has
    finished are single-flight. *)
Lemma two_callers_in_turn_are_single_flight :
  single_flight world_up BrowserConfig_default 2 [0; 0; 0; 1].
Proof.
  unfold single_flight.
  destruct (schedule world_up [0; 0; 0; 1] (callers 2)
              (fresh BrowserConfig_default) []) as [[pool self] t] eqn:Hrun.
  vm_compute in Hrun. inversion Hrun; subst; clear Hrun.
  exists 0. repeat split; repeat constructor.
Qed.

(** C1 as stated fails.  Two gathered callers on a default Browser, in a
    world where everything works, woken in turn: both find no handle, both
    start a driver, both launch a browser.  The first returns browser 0, the
    second browser 1, and browser 1 on driver 1 is what stays stored. *)
Lemma two_gathered_callers_launch_twice :
  (let '(pool, self, t) :=
     schedule world_up [0; 1; 0; 1; 0; 1] (callers 2)
       (fresh BrowserConfig_default) [] in
   map (@result _) pool
     = [Some (Returned (Some 0)); Some (Returned (Some 1))] /\
   playwright_browser self = Bound (Some 1) /\
   playwright self = Bound (Some 1) /\
   count is_start t = 2 /\
   count is_attach t = 2) /\
  ~ single_flight world_up BrowserConfig_default 2 [0; 1; 0; 1; 0; 1].
Proof.
  split.
  - vm_compute. repeat split; reflexivity.
  - unfold single_flight.
    destruct (schedule world_up [0; 1; 0; 1; 0; 1] (callers 2)
                (fresh BrowserConfig_default) []) as [[pool self] t] eqn:Hrun.
    vm_compute in Hrun. inversion Hrun; subst; clear Hrun.
    intros (b & _ & _ & Hstart & _). vm_compute in Hstart. discriminate Hstart.
Qed.

(** C1, amended.  On an object without a handle:
    - calls made one after the other are single-flight: when the first
      returns handle [b], it and any number of calls after it all return
      [b], [b] is what is stored, and together they started one driver and
      made one connection attempt, those of the first call;
    - [n] gathered callers are not deduplicated: woken in turn, each finds
      no handle and starts a driver of its own, so that [n] drivers are
      started while nothing is stored yet, and each is suspended in its own
      [_init];
    - in whatever order they are woken after that and whatever the world
      answers, once all [n] have returned, [n] drivers were started and [n]
      connection attempts were made: one strategy execution per caller. *)
Theorem single_flight_in_sequence_only (respond : world) self t :
  playwright_browser self = Bound None ->
  (forall b self1 t1 n,
     run respond Browser.get_playwright_browser self t
       = (Returned (Some b), self1, t1) ->
     in_sequence respond (S n) Browser.get_playwright_browser self t
       = (repeat (Returned (Some b)) (S n), self1, t1) /\
     playwright_browser self1 = Bound (Some b) /\
     count is_start t1 = S (count is_start t) /\
     count is_attach t1 = S (count is_attach t)) /\
  (forall n,
     schedule respond (seq 0 n) (callers n) self t
       = (suspended respond t n, self,
          t ++ repeat async_playwright_start n)) /\
  (forall n order pool' self' t',
     schedule respond (seq 0 n ++ order) (callers n) self t
       = (pool', self', t') ->
     Forall (fun p => exists b, result p = Some (Returned b)) pool' ->
     count is_start t' = count is_start t + n /\
     count is_attach t' = count is_attach t + n).
Proof.
  intros Hb. split; [| split].
  - intros b self1 t1 n Hrun.
    destruct (run_get_playwright_browser_creates respond _ _ Hb Hrun)
      as (Hstored & Hstart & Hattach).
    repeat split; auto.
    cbn [in_sequence]. rewrite Hrun, (in_sequence_stored respond n _ _ Hstored).
    reflexivity.
  - intros n. apply (schedule_gather respond n [] self t Hb).
  - intros n order pool' self' t' Hrun Hdone.
    eapply gathered_callers_attach_each; eauto.
Qed.

Lemma single_flight_in_sequence_witness :
  let self := fresh BrowserConfig_default in
  let first := run world_up Browser.get_playwright_browser self [] in
  let both := schedule world_up (seq 0 2 ++ [1; 0; 0; 1]) (callers 2) self [] in
  (in_sequence world_up 3 Browser.get_playwright_browser self []
     = (repeat (Returned (Some 0)) 3, snd (fst first), snd first) /\
   playwright_browser (snd (fst first)) = Bound (Some 0) /\
   count is_start (snd first) = 1 /\
   count is_attach (snd first) = 1) /\
  schedule world_up (seq 0 2) (callers 2) self []
    = (suspended world_up [] 2, self, [] ++ repeat async_playwright_start 2) /\
  (count is_start (snd both) = count is_start [] + 2 /\
   count is_attach (snd both) = count is_attach [] + 2).
Proof.
  intros self first both.
  pose proof (@single_flight_in_sequence_only world_up self [] eq_refl)
    as (Hseq & Hgather & Hany).
  split; [| split].
  - apply (Hseq 0 (snd (fst first)) (snd first) 2). reflexivity.
  - apply (Hgather 2).
  - apply (Hany 2 [1; 0; 0; 1] (fst (fst both)) (snd (fst both)) (snd both)).
    + reflexivity.
    + repeat constructor; eexists; reflexivity.
Defined.

(** * Further properties of the code *)

(** ** get_playwright_browser and _init *)

(** X1. A first call whose driver start and strategy succeed stores that
    driver and the browser the strategy returned, returns that browser and
    makes no call besides the start and the strategy's; the next call
    returns the same browser without any call. *)
Theorem first_call_stores_what_it_returns (respond : world) self t
    (playwright0 : Playwright) (browser0 : PlaywrightBrowser) self' t' :
  playwright_browser self = Bound None ->
  respond t async_playwright_start = inl playwright0 ->
  run respond (Browser._setup_browser playwright0) self
      (t ++ [async_playwright_start]) = (Returned browser0, self', t') ->
  let stored :=
    set_playwright_browser (Bound (Some browser0))
      (set_playwright (Bound (Some playwright0)) self) in
  run respond Browser.get_playwright_browser self t
    = (Returned (Some browser0), stored, t') /\
  playwright stored = Bound (Some playwright0) /\
  playwright_browser stored = Bound (Some browser0) /\
  run respond Browser.get_playwright_browser stored t'
    = (Returned (Some browser0), stored, t').
Proof.
  intros Hb Hstart Hsetup stored.
  pose proof (@run_reads_only respond _ (Browser._setup_browser playwright0)
                self (t ++ [async_playwright_start])
                (reads_only_setup_browser playwright0)) as Hsame.
  rewrite Hsetup in Hsame. simpl in Hsame. subst self'.
  split; [| split; [reflexivity | split; [reflexivity |]]].
  - rewrite (run_get_playwright_browser_first _ _ _ Hb), Hstart.
    rewrite run_init_resumed, Hsetup. reflexivity.
  - apply run_get_playwright_browser_stored. reflexivity.
Qed.

Lemma first_call_stores_witness :
  let self := fresh BrowserConfig_default in
  let t' := snd (run world_up (Browser._setup_browser 0) self
                   ([] ++ [async_playwright_start])) in
  let stored :=
    set_playwright_browser (Bound (Some 0))
      (set_playwright (Bound (Some 0)) self) in
  run world_up Browser.get_playwright_browser self []
    = (Returned (Some 0), stored, t') /\
  playwright stored = Bound (Some 0) /\
  playwright_browser stored = Bound (Some 0) /\
  run world_up Browser.get_playwright_browser stored t'
    = (Returned (Some 0), stored, t').
Proof.
  intros self t' stored.
  apply (@first_call_stores_what_it_returns world_up self [] 0 0 self t');
    reflexivity.
Defined.

(** X2. When [async_playwright().start()] raises, the call raises that
    error from an unchanged object: the start is its only call, no strategy
    is tried and nothing is logged. *)
Theorem driver_start_failure_propagates (respond : world) self t
    (e : playwright_error) :
  playwright_browser self = Bound None ->
  respond t async_playwright_start = inr e ->
  run respond Browser.get_playwright_browser self t
    = (Raised (PlaywrightError e), self, t ++ [async_playwright_start]).
Proof.
  intros Hb Hstart.
  rewrite (run_get_playwright_browser_first _ _ _ Hb), Hstart. reflexivity.
Qed.

Lemma driver_start_failure_witness :
  run world_no_driver Browser.get_playwright_browser
      (fresh BrowserConfig_default) []
    = (Raised (PlaywrightError (Error "Driver not found")),
       fresh BrowserConfig_default, [] ++ [async_playwright_start]).
Proof. apply driver_start_failure_propagates; reflexivity. Defined.

(** X3. After [close], whatever the object held and however the teardown
    went, the next [get_playwright_browser] connects anew: it starts a
    driver again, and when it returns a browser, that browser is stored and
    came from one new driver start and one new connection attempt. *)
Theorem get_after_close_connects_anew (respond : world) self t :
  let closed := run respond Browser.close self t in
  let again :=
    run respond Browser.get_playwright_browser (snd (fst closed))
        (snd closed) in
  again =
    run respond
      (_init_resumed (respond (snd closed) async_playwright_start))
      (cleared self) (snd closed ++ [async_playwright_start]) /\
  forall browser0,
    fst (fst again) = Returned (Some browser0) ->
    playwright_browser (snd (fst again)) = Bound (Some browser0) /\
    count is_start (snd again) = S (count is_start (snd closed)) /\
    count is_attach (snd again) = S (count is_attach (snd closed)).
Proof.
  cbv zeta. rewrite close_run. cbn [fst snd].
  set (t1 := snd (run respond Browser.release self t) ++ _).
  split.
  - apply run_get_playwright_browser_first. reflexivity.
  - intros browser0 Hret.
    destruct (run respond Browser.get_playwright_browser (cleared self) t1)
      as [[o self1] t2] eqn:Hrun.
    cbn [fst snd] in *. subst o.
    apply (run_get_playwright_browser_creates respond (cleared self) t1
             eq_refl Hrun).
Qed.

Lemma get_after_close_witness :
  let closed :=
    run world_up Browser.close (connected BrowserConfig_default 0 0) [] in
  let again :=
    run world_up Browser.get_playwright_browser (snd (fst closed))
        (snd closed) in
  playwright_browser (snd (fst again)) = Bound (Some 0) /\
  count is_start (snd again) = S (count is_start (snd closed)) /\
  count is_attach (snd again) = S (count is_attach (snd closed)).
Proof.
  intros closed again.
  apply (proj2 (get_after_close_connects_anew world_up
                  (connected BrowserConfig_default 0 0) []) 0).
  reflexivity.
Defined.

(** ** The direct strategies *)

(** X4. With a CDP URL configured, whatever the other fields hold,
    [_setup_browser] makes one [connect_over_cdp] on that URL, without a
    timeout argument and after the info line: no probe, no spawn, no sleep,
    no second attempt.  A failed attach is logged and raised at once. *)
Theorem remote_attach_is_one_shot (respond : world)
    (playwright0 : Playwright) self t :
  truthy (cdp_url (config self)) = true ->
  let url := text (cdp_url (config self)) in
  let told :=
    t ++ [logger INFO ("Connecting to remote browser via CDP " ++ url)] in
  let connect := chromium_connect_over_cdp playwright0 url None in
  run respond (Browser._setup_browser playwright0) self t =
    match respond told connect with
    | inl browser => (Returned browser, self, told ++ [connect])
    | inr e =>
        (Raised (PlaywrightError e), self,
         told ++ [connect; init_failed (PlaywrightError e)])
    end.
Proof.
  intros Hcdp url told connect.
  unfold Browser._setup_browser. rewrite run_try_except, run_bind.
  cbn [self_config run]. rewrite Hcdp.
  unfold Browser._setup_cdp. rewrite run_bind. cbn [self_config run].
  rewrite Hcdp.
  cbn [negb bind log await_connect_over_cdp run].
  fold url. fold told. fold connect.
  destruct (respond told connect) as [browser | e];
    cbn [returned bind run log].
  - reflexivity.
  - unfold init_failed. rewrite <- app_assoc. reflexivity.
Qed.

Lemma remote_attach_witness :
  let self := fresh (with_cdp "http://10.0.0.7:9222") in
  let told :=
    [] ++ [logger INFO ("Connecting to remote browser via CDP "
                        ++ "http://10.0.0.7:9222")] in
  let connect := chromium_connect_over_cdp 5 "http://10.0.0.7:9222" None in
  run world_down (Browser._setup_browser 5) self [] =
    match world_down told connect with
    | inl browser => (Returned browser, self, told ++ [connect])
    | inr e =>
        (Raised (PlaywrightError e), self,
         told ++ [connect; init_failed (PlaywrightError e)])
    end.
Proof.
  apply (@remote_attach_is_one_shot world_down 5
           (fresh (with_cdp "http://10.0.0.7:9222")) []).
  reflexivity.
Defined.

(** X5. With no CDP URL (none, or an empty string) and a WSS URL
    configured, [_setup_browser] makes one [connect] on that URL after the
    info line, whatever the Chrome path holds; a failed attach is logged and
    raised at once. *)
Theorem socket_attach_is_one_shot (respond : world)
    (playwright0 : Playwright) self t :
  truthy (cdp_url (config self)) = false ->
  truthy (wss_url (config self)) = true ->
  let url := text (wss_url (config self)) in
  let told :=
    t ++ [logger INFO ("Connecting to remote browser via WSS " ++ url)] in
  let connect := chromium_connect playwright0 url in
  run respond (Browser._setup_browser playwright0) self t =
    match respond told connect with
    | inl browser => (Returned browser, self, told ++ [connect])
    | inr e =>
        (Raised (PlaywrightError e), self,
         told ++ [connect; init_failed (PlaywrightError e)])
    end.
Proof.
  intros Hcdp Hwss url told connect.
  unfold Browser._setup_browser. rewrite run_try_except, run_bind.
  cbn [self_config run]. rewrite Hcdp, Hwss.
  unfold Browser._setup_wss. rewrite run_bind. cbn [self_config run].
  rewrite Hwss.
  cbn [negb bind log await_connect run].
  fold url. fold told. fold connect.
  destruct (respond told connect) as [browser | e];
    cbn [returned bind run log].
  - reflexivity.
  - unfold init_failed. rewrite <- app_assoc. reflexivity.
Qed.

Lemma socket_attach_witness :
  let self := fresh (with_wss "wss://remote.example/playwright") in
  let told :=
    [] ++ [logger INFO ("Connecting to remote browser via WSS "
                        ++ "wss://remote.example/playwright")] in
  let connect := chromium_connect 5 "wss://remote.example/playwright" in
  run world_up (Browser._setup_browser 5) self [] =
    match world_up told connect with
    | inl browser => (Returned browser, self, told ++ [connect])
    | inr e =>
        (Raised (PlaywrightError e), self,
         told ++ [connect; init_failed (PlaywrightError e)])
    end.
Proof.
  apply (@socket_attach_is_one_shot world_up 5
           (fresh (with_wss "wss://remote.example/playwright")) []);
    reflexivity.
Defined.

(** X6. On a Browser built by [__init__] with none of the three fields
    set, [_setup_browser] makes one [launch]: the thirteen baseline flags,
    then the three security flags exactly when [disable_security] is set,
    then the caller's extra arguments, with the configured [headless] and
    [proxy].  A failed launch is logged and raised, and not retried. *)
Theorem standard_launch_arguments (respond : world)
    (playwright0 : Playwright) cfg t0 t :
  truthy (cdp_url cfg) = false ->
  truthy (wss_url cfg) = false ->
  truthy (chrome_instance_path cfg) = false ->
  let self := fst (__init__ cfg t0) in
  run respond (Browser._setup_browser playwright0) self t =
    match respond t (launch cfg playwright0) with
    | inl browser => (Returned browser, self, t ++ [launch cfg playwright0])
    | inr e =>
        (Raised (PlaywrightError e), self,
         t ++ [launch cfg playwright0; init_failed (PlaywrightError e)])
    end.
Proof.
  intros Hcdp Hwss Hpath self. subst self.
  unfold Browser._setup_browser. rewrite run_try_except, run_bind.
  cbn [self_config run __init__ fst config].
  rewrite Hcdp, Hwss, Hpath.
  unfold Browser._setup_standard_browser.
  cbn [bind self_config self_disable_security_args await_launch run
       __init__ fst config disable_security_args].
  change (chromium_launch playwright0 (headless cfg) _ (proxy cfg))
    with (launch cfg playwright0).
  destruct (respond t (launch cfg playwright0)) as [browser | e];
    cbn [returned bind run log].
  - reflexivity.
  - unfold init_failed. rewrite <- app_assoc. reflexivity.
Qed.

Lemma standard_launch_witness :
  let self := fst (__init__ keep_alive []) in
  run world_up (Browser._setup_browser 2) self [] =
    match world_up [] (launch keep_alive 2) with
    | inl browser => (Returned browser, self, [] ++ [launch keep_alive 2])
    | inr e =>
        (Raised (PlaywrightError e), self,
         [] ++ [launch keep_alive 2; init_failed (PlaywrightError e)])
    end.
Proof.
  apply (@standard_launch_arguments world_up 2 keep_alive [] []);
    reflexivity.
Defined.

(** ** The reuse-or-launch strategy, once a Chrome has to be started *)

Section Launch.

Variable respond : world.

(** The loop leaves at the first probe that answers 200, without the sleep. *)
Lemma run_for_range_until n : forall k self t response,
  k < n ->
  (forall i, i < k -> refused (respond (t ++ polled i) probe) = true) ->
  respond (t ++ polled k) probe = inl response ->
  status_code response = 200%Z ->
  run respond (for_range n Browser.poll_once) self t
    = (Returned tt, self, t ++ polled k ++ [probe]).
Proof.
  induction n as [| n IH]; intros k self t response Hk Hdown Hup Hok;
    [lia |].
  rewrite for_range_S, run_bind.
  destruct k as [| k].
  - simpl in Hup. rewrite app_nil_r in Hup.
    rewrite run_poll_once, Hup, Hok. reflexivity.
  - pose proof (Hdown 0 ltac:(lia)) as Hfirst.
    simpl in Hfirst. rewrite app_nil_r in Hfirst.
    rewrite (run_poll_once_refused respond self t Hfirst).
    rewrite (IH k self (t ++ [probe; asyncio_sleep 1]) response).
    + rewrite <- app_assoc. reflexivity.
    + lia.
    + intros i Hi. rewrite <- app_assoc. apply (Hdown (S i)). lia.
    + rewrite <- app_assoc. exact Hup.
    + exact Hok.
Qed.


(** A reuse check that finds nothing hands over to [launch_and_attach]. *)
Lemma run_instance_refused (playwright0 : Playwright) self t :
  truthy (chrome_instance_path (config self)) = true ->
  refused (respond t probe) = true ->
  run respond (Browser._setup_browser_with_instance playwright0) self t =
  run respond (Browser.launch_and_attach (config self) playwright0) self
      (t ++ reuse_check (respond t probe)).
Proof.
  intros Hpath Hdown. rewrite run_setup_browser_with_instance by exact Hpath.
  destruct (respond t probe) as [response | r]; simpl in Hdown.
  - destruct (status_code response =? 200)%Z; [discriminate | reflexivity].
  - rewrite Hdown. reflexivity.
Qed.


End Launch.



(** X8. The reuse check finds nothing, the spawn works, the endpoint
    refuses the first [k] polls (fewer than ten) and answers the next with
    200, and the attach goes through: the strategy returns the attached
    browser after one spawn, [k] refused polls each followed by a one-second
    sleep, the poll that succeeded with no sleep after it, and one attach. *)
Theorem endpoint_reachable_after_polls (respond : world)
    (playwright0 : Playwright) self t k response
    (browser0 : PlaywrightBrowser) :
  truthy (chrome_instance_path (config self)) = true ->
  refused (respond t probe) = true ->
  let before := reuse_check (respond t probe) in
  let spawned := t ++ before ++ [spawn (config self)] in
  respond (t ++ before) (spawn (config self)) = inl tt ->
  k < 10 ->
  (forall i, i < k -> refused (respond (spawned ++ polled i) probe) = true) ->
  respond (spawned ++ polled k) probe = inl response ->
  status_code response = 200%Z ->
  respond (spawned ++ polled k ++ [probe]) (attach playwright0)
    = inl browser0 ->
  run respond (Browser._setup_browser_with_instance playwright0) self t
    = (Returned browser0, self,
       spawned ++ polled k ++ [probe; attach playwright0]) /\
  count is_spawn (before ++ [spawn (config self)] ++ polled k
                  ++ [probe; attach playwright0]) = 1 /\
  count is_probe (polled k ++ [probe; attach playwright0]) = S k.
Proof.
  intros Hpath Hfirst before spawned Hspawn Hk Hdown Hup Hok Hattach.
  split; [| split].
  - rewrite (run_instance_refused respond playwright0 self t Hpath Hfirst).
    fold before. rewrite run_launch_and_attach, Hspawn. cbv zeta.
    replace ((t ++ before) ++ [spawn (config self)]) with spawned
      by (unfold spawned; rewrite <- app_assoc; reflexivity).
    unfold Browser.wait_for_endpoint.
    rewrite (run_for_range_until respond (n := 10) self spawned Hk Hdown
               Hup Hok).
    cbn [fst snd]. rewrite <- app_assoc, Hattach, <- !app_assoc.
    reflexivity.
  - rewrite !count_app, count_spawn_polled.
    unfold before, reuse_check.
    destruct (respond t probe); unfold count, probe, spawn, attach; simpl;
      reflexivity.
  - rewrite count_app, count_probe_polled.
    unfold count, probe, attach. simpl. lia.
Qed.

Lemma endpoint_reachable_after_polls_witness :
  let self := fresh (with_chrome "/usr/bin/google-chrome") in
  let before := reuse_check (world_warming [] probe) in
  let spawned := [] ++ before ++ [spawn (config self)] in
  run world_warming (Browser._setup_browser_with_instance 0) self []
    = (Returned 0, self, spawned ++ polled 3 ++ [probe; attach 0]) /\
  count is_spawn (before ++ [spawn (config self)] ++ polled 3
                  ++ [probe; attach 0]) = 1 /\
  count is_probe (polled 3 ++ [probe; attach 0]) = 4.
Proof.
  intros self before spawned.
  apply (@endpoint_reachable_after_polls world_warming 0 self [] 3
           {| status_code := 200 |} 0); try reflexivity.
  - lia.
  - intros [| [| [| i]]] Hi; try reflexivity. lia.
Defined.

(** X9. The reuse check finds nothing and [subprocess.Popen] raises (no
    such executable, no permission): the strategy raises that [OSError]
    right after the spawn call; it does not poll and does not attach. *)
Theorem spawn_failure_is_final (respond : world)
    (playwright0 : Playwright) self t msg :
  truthy (chrome_instance_path (config self)) = true ->
  refused (respond t probe) = true ->
  let before := reuse_check (respond t probe) in
  respond (t ++ before) (spawn (config self)) = inr msg ->
  run respond (Browser._setup_browser_with_instance playwright0) self t
    = (Raised (OSError msg), self, t ++ before ++ [spawn (config self)]) /\
  count is_probe (before ++ [spawn (config self)]) = 1 /\
  count is_attach (before ++ [spawn (config self)]) = 0.
Proof.
  intros Hpath Hfirst before Hspawn. split.
  - rewrite (run_instance_refused respond playwright0 self t Hpath Hfirst).
    fold before. rewrite run_launch_and_attach, Hspawn, <- app_assoc.
    reflexivity.
  - unfold before, reuse_check.
    destruct (respond t probe); unfold count, probe, spawn; simpl; auto.
Qed.

Lemma spawn_failure_witness :
  let self := fresh (with_chrome "/opt/missing/chrome") in
  let before := reuse_check (world_no_chrome [] probe) in
  run world_no_chrome (Browser._setup_browser_with_instance 0) self []
    = (Raised (OSError "[Errno 2] No such file or directory"), self,
       [] ++ before ++ [spawn (config self)]) /\
  count is_probe (before ++ [spawn (config self)]) = 1 /\
  count is_attach (before ++ [spawn (config self)]) = 0.
Proof.
  apply (@spawn_failure_is_final world_no_chrome 0
           (fresh (with_chrome "/opt/missing/chrome")) []); reflexivity.
Defined.

(** X10. The verdict of the polls does not gate the attach.  When the reuse
    check and all ten polls are refused, the strategy still attaches, and if
    that attach goes through it returns the browser: after the spawn, ten
    polls with their sleeps and the attach. *)
Theorem attach_is_tried_after_ten_refused_polls (respond : world)
    (playwright0 : Playwright) self t (browser0 : PlaywrightBrowser) :
  truthy (chrome_instance_path (config self)) = true ->
  (forall h, refused (respond h probe) = true) ->
  let before := reuse_check (respond t probe) in
  let waited := t ++ before ++ spawn (config self) :: polled 10 in
  respond (t ++ before) (spawn (config self)) = inl tt ->
  respond waited (attach playwright0) = inl browser0 ->
  run respond (Browser._setup_browser_with_instance playwright0) self t
    = (Returned browser0, self, waited ++ [attach playwright0]).
Proof.
  intros Hpath Hdown before waited Hspawn Hattach.
  rewrite (run_instance_refused respond playwright0 self t Hpath (Hdown t)).
  fold before. rewrite run_launch_and_attach, Hspawn. cbv zeta.
  unfold Browser.wait_for_endpoint.
  rewrite run_for_range_refused by exact Hdown. cbn [fst snd].
  replace (((t ++ before) ++ [spawn (config self)]) ++ polled 10)
    with waited
    by (unfold waited; rewrite <- !app_assoc; reflexivity).
  rewrite Hattach. reflexivity.
Qed.

Lemma attach_after_refused_polls_witness :
  let self := fresh (with_chrome "/usr/bin/google-chrome") in
  let before := reuse_check (world_busy [] probe) in
  let waited := [] ++ before ++ spawn (config self) :: polled 10 in
  run world_busy (Browser._setup_browser_with_instance 0) self []
    = (Returned 0, self, waited ++ [attach 0]).
Proof.
  apply (@attach_is_tried_after_ten_refused_polls world_busy 0
           (fresh (with_chrome "/usr/bin/google-chrome")) [] 0);
    reflexivity.
Defined.

(** ** close, alone and among other tasks *)

(** X11. A [close] with the flag unset on an object that holds a browser
    and a driver, when the browser's [close] returns: the browser is closed
    first and the driver stopped second, each once.  If the driver's [stop]
    raises, that goes to the debug log; either way [close] returns normally
    with both references [None], the collector being its last call. *)
Theorem close_releases_browser_then_driver (respond : world) self t
    (b : PlaywrightBrowser) (p : Playwright) :
  _force_keep_browser_alive (config self) = false ->
  playwright_browser self = Bound (Some b) ->
  playwright self = Bound (Some p) ->
  respond t (PlaywrightBrowser_close b) = inl tt ->
  let closed := t ++ [PlaywrightBrowser_close b] in
  run respond Browser.close self t =
    (Returned tt, cleared self,
     closed ++ [Playwright_stop p]
     ++ match respond closed (Playwright_stop p) with
        | inl _ => []
        | inr e =>
            [logger DEBUG ("Failed to close browser properly: "
                           ++ str (PlaywrightError e))]
        end ++ [gc_collect]).
Proof.
  intros Hk Hb Hp Hclose closed. rewrite close_run.
  assert (run respond Browser.release self t =
          match respond closed (Playwright_stop p) with
          | inl _ =>
              (Returned tt,
               set_playwright Deleted (set_playwright_browser Deleted self),
               closed ++ [Playwright_stop p])
          | inr e =>
              (Raised (PlaywrightError e),
               set_playwright_browser Deleted self,
               closed ++ [Playwright_stop p])
          end) as ->.
  { destruct self as [cfg pw br d]. simpl in Hk, Hb, Hp. subst.
    unfold Browser.release.
    cbn [bind self_config self_playwright_browser self_playwright getattr
         run playwright_browser playwright config].
    rewrite Hk.
    cbn [negb bind self_playwright_browser self_playwright getattr method
         await_close await_stop del_playwright_browser del_playwright delattr
         run playwright_browser playwright set_playwright_browser
         set_playwright].
    rewrite Hclose.
    cbn [returned bind self_playwright_browser self_playwright getattr
         method await_close await_stop del_playwright_browser
         del_playwright delattr run playwright_browser playwright
         set_playwright_browser set_playwright].
    fold closed.
    destruct (respond closed (Playwright_stop p)) as [u | e];
      cbn [returned bind del_playwright delattr run playwright
           set_playwright_browser]; [destruct u |]; reflexivity. }
  destruct (respond closed (Playwright_stop p)) as [u | e]; cbn [fst snd].
  - rewrite <- !app_assoc. reflexivity.
  - rewrite <- !app_assoc. reflexivity.
Qed.

Lemma close_releases_witness :
  let self := connected BrowserConfig_default 3 4 in
  let closed := [] ++ [PlaywrightBrowser_close 4] in
  run world_up Browser.close self [] =
    (Returned tt, cleared self,
     closed ++ [Playwright_stop 3]
     ++ match world_up closed (Playwright_stop 3) with
        | inl _ => []
        | inr e =>
            [logger DEBUG ("Failed to close browser properly: "
                           ++ str (PlaywrightError e))]
        end ++ [gc_collect]).
Proof.
  apply (@close_releases_browser_then_driver world_up
           (connected BrowserConfig_default 3 4) [] 4 3); reflexivity.
Defined.

(** X12. A caller of [get_playwright_browser] that runs while [close] is
    under way is not kept out.  While [close] waits for the browser's
    [close], the caller is handed that very browser.  Once the browser's
    [close] has returned and [close] waits for the driver's [stop], the
    attribute is deleted and the caller gets an [AttributeError]. *)
Theorem get_while_close_is_suspended (respond : world) self t
    (b : PlaywrightBrowser) (p : Playwright) :
  _force_keep_browser_alive (config self) = false ->
  playwright_browser self = Bound (Some b) ->
  playwright self = Bound (Some p) ->
  let pool := [close_task; Browser.get_playwright_browser] in
  let early := schedule respond [0; 1] pool self t in
  let late := schedule respond [0; 0; 1] pool self t in
  (map (@result _) (fst (fst early)) = [None; Some (Returned (Some b))] /\
   snd (fst early) = self /\
   snd early = t ++ [PlaywrightBrowser_close b]) /\
  (respond t (PlaywrightBrowser_close b) = inl tt ->
   map (@result _) (fst (fst late)) =
     [ None;
       Some (Raised (AttributeError
               "'Browser' object has no attribute 'playwright_browser'")) ] /\
   playwright_browser (snd (fst late)) = Deleted /\
   snd late = t ++ [PlaywrightBrowser_close b; Playwright_stop p]).
Proof.
  intros Hk Hb Hp pool early late.
  destruct self as [cfg pw br d]. destruct cfg. simpl in Hk, Hb, Hp. subst.
  subst early late pool. split.
  - cbv - [app].
    destruct (respond t (PlaywrightBrowser_close b)) as [u | e];
      repeat split; reflexivity.
  - intros Hclose. cbv - [app]. rewrite Hclose.
    destruct (respond _ (Playwright_stop p)) as [u | e];
      rewrite <- app_assoc; repeat split; reflexivity.
Qed.

Lemma get_while_close_witness :
  let self := connected BrowserConfig_default 3 4 in
  let pool := [close_task; Browser.get_playwright_browser] in
  let early := schedule world_up [0; 1] pool self [] in
  let late := schedule world_up [0; 0; 1] pool self [] in
  (map (@result _) (fst (fst early)) = [None; Some (Returned (Some 4))] /\
   snd (fst early) = self /\
   snd early = [] ++ [PlaywrightBrowser_close 4]) /\
  (map (@result _) (fst (fst late)) =
     [ None;
       Some (Raised (AttributeError
               "'Browser' object has no attribute 'playwright_browser'")) ] /\
   playwright_browser (snd (fst late)) = Deleted /\
   snd late = [] ++ [PlaywrightBrowser_close 4; Playwright_stop 3]).
Proof.
  intros self pool early late.
  pose proof (@get_while_close_is_suspended world_up self [] 4 3
                eq_refl eq_refl eq_refl) as [Hearly Hlate].
  split; [exact Hearly | apply Hlate; reflexivity].
Defined.

(** X13. Two [close] calls gathered on an object that holds a browser are
    not serialized: the second reaches the browser's [close] while the
    first is waiting in it, so the browser's [close] is called twice before
    either has cleared the reference. *)
Theorem gathered_closes_close_twice (respond : world) self t
    (b : PlaywrightBrowser) :
  _force_keep_browser_alive (config self) = false ->
  playwright_browser self = Bound (Some b) ->
  let both := schedule respond [0; 1] [Browser.close; Browser.close] self t in
  snd both = t ++ [PlaywrightBrowser_close b; PlaywrightBrowser_close b] /\
  snd (fst both) = self /\
  map (@result _) (fst (fst both)) = [None; None].
Proof.
  intros Hk Hb both.
  destruct self as [cfg pw br d]. destruct cfg. simpl in Hk, Hb. subst.
  subst both. cbv - [app].
  destruct (respond t (PlaywrightBrowser_close b)) as [u | e];
    destruct (respond _ (PlaywrightBrowser_close b)) as [u' | e'];
    rewrite <- app_assoc; repeat split; reflexivity.
Qed.

Lemma gathered_closes_witness :
  let self := connected BrowserConfig_default 3 4 in
  let both := schedule world_down [0; 1] [Browser.close; Browser.close] self [] in
  snd both = [] ++ [PlaywrightBrowser_close 4; PlaywrightBrowser_close 4] /\
  snd (fst both) = self /\
  map (@result _) (fst (fst both)) = [None; None].
Proof.
  apply (@gathered_closes_close_twice world_down
           (connected BrowserConfig_default 3 4) [] 4); reflexivity.
Defined.

(** ** The finalizer *)

Lemma step_last (respond : world) A (tasks : list (Prog A)) p self t :
  step respond (length tasks) (tasks ++ [p]) self t =
  let '(p', self', t') := resume respond p self t in
  (tasks ++ [p'], self', t').
Proof.
  unfold step. rewrite nth_error_middle.
  destruct (resume respond p self t) as [[p' self'] t'].
  rewrite replace_nth_app. reflexivity.
Qed.

(** [close] has two awaits at most: woken three times, it is through, and
    both references are [None]. *)
Lemma close_finishes_in_three_wakes (respond : world) self t :
  let first := resume respond Browser.close self t in
  let second :=
    resume respond (fst (fst first)) (snd (fst first)) (snd first) in
  let third :=
    resume respond (fst (fst second)) (snd (fst second)) (snd second) in
  fst (fst third) = Ret tt /\ snd (fst third) = cleared self.
Proof.
  destruct self as [cfg pw br d]. destruct cfg.
  destruct _force_keep_browser_alive0; [cbv - [app]; auto |].
  destruct br as [| [b |]]; destruct pw as [| [p |]]; cbv - [app];
    repeat match goal with
           | |- context [respond ?h ?c] =>
               let r := fresh "r" in
               destruct (respond h c) as [r | r]; try destruct r
           end;
    auto.
Qed.

(** X14. Outside a running event loop the finalizer releases nothing: when
    [asyncio.get_running_loop()] raises, [__del__] on an object that still
    holds a browser (or only a driver) calls neither [close] nor [stop],
    schedules nothing, leaves both references as they are and logs the
    RuntimeError at DEBUG.  On an object that holds nothing it does nothing
    at all, whatever [asyncio] would answer. *)
Theorem finalizer_without_loop_releases_nothing (respond : world) a tasks
    self t msg :
  (running_loop a = inl msg ->
   (exists b, playwright_browser self = Bound (Some b)) \/
   (playwright_browser self = Bound None /\
    exists p, playwright self = Bound (Some p)) ->
   __del__ respond a tasks self t
     = (tasks, self, t ++ [cleanup_failed (RuntimeError msg)])) /\
  (playwright_browser self = Bound None ->
   playwright self = Bound None ->
   __del__ respond a tasks self t = (tasks, self, t)).
Proof.
  destruct self as [cfg pw br d]. simpl. split.
  - intros Hloop [[b ->] | [-> [p ->]]]; unfold __del__, _del_branch;
      cbn [bind self_playwright_browser self_playwright getattr run
           playwright_browser playwright]; rewrite Hloop; reflexivity.
  - intros -> ->. reflexivity.
Qed.

Lemma finalizer_without_loop_witness :
  let a := {| running_loop := inl "no running event loop";
              run_refused := None |} in
  let self := connected BrowserConfig_default 3 4 in
  __del__ world_up a [] self []
    = ([], self,
       [] ++ [cleanup_failed (RuntimeError "no running event loop")]) /\
  __del__ world_up a [] (fresh BrowserConfig_default) []
    = ([], fresh BrowserConfig_default, []).
Proof.
  intros a self.
  split.
  - apply (proj1 (@finalizer_without_loop_releases_nothing world_up a []
                    self [] "no running event loop")).
    + reflexivity.
    + left. exists 4. reflexivity.
  - apply (proj2 (@finalizer_without_loop_releases_nothing world_up a []
                    (fresh BrowserConfig_default) []
                    "no running event loop")); reflexivity.
Defined.

(** X15. Inside a running event loop the finalizer closes nothing itself:
    on an object that holds a browser, [__del__] adds one [close] task to
    the loop and returns with the object and the trace untouched.  The
    references are cleared only when the loop gets to that task: woken three
    times, it has returned, both references are [None] and the other tasks
    are as they were. *)
Theorem finalizer_schedules_close (respond : world) a
    (tasks : list (Prog unit)) self t (b : PlaywrightBrowser) :
  running_loop a = inr true ->
  playwright_browser self = Bound (Some b) ->
  let n := length tasks in
  let later :=
    schedule respond [n; n; n] (tasks ++ [Browser.close]) self t in
  __del__ respond a tasks self t = (tasks ++ [Browser.close], self, t) /\
  fst (fst later) = tasks ++ [Ret tt] /\
  playwright_browser (snd (fst later)) = Bound None /\
  playwright (snd (fst later)) = Bound None.
Proof.
  intros Hloop Hb n later. split.
  - destruct self as [cfg pw br d]. simpl in Hb. subst.
    unfold __del__, _del_branch.
    cbn [bind self_playwright_browser getattr run playwright_browser].
    rewrite Hloop. reflexivity.
  - pose proof (close_finishes_in_three_wakes respond self t) as Hthree.
    cbv zeta in Hthree. subst later n. cbn [schedule].
    rewrite step_last.
    destruct (resume respond Browser.close self t) as [[p1 s1] t1].
    rewrite step_last.
    cbn [fst snd] in Hthree.
    destruct (resume respond p1 s1 t1) as [[p2 s2] t2].
    rewrite step_last.
    cbn [fst snd] in Hthree.
    destruct (resume respond p2 s2 t2) as [[p3 s3] t3].
    cbn [fst snd] in *. destruct Hthree as [-> ->].
    repeat split; reflexivity.
Qed.

Lemma finalizer_schedules_close_witness :
  let a := {| running_loop := inr true; run_refused := None |} in
  let self := connected BrowserConfig_default 3 4 in
  let tasks := [log INFO "working"] in
  let later :=
    schedule world_up [1; 1; 1] (tasks ++ [Browser.close]) self [] in
  __del__ world_up a tasks self [] = (tasks ++ [Browser.close], self, []) /\
  fst (fst later) = tasks ++ [Ret tt] /\
  playwright_browser (snd (fst later)) = Bound None /\
  playwright (snd (fst later)) = Bound None.
Proof.
  intros a self tasks later.
  apply (@finalizer_schedules_close world_up a tasks self [] 4); reflexivity.
Defined.
